(** * DocuVoice: the audio decoder and the audio player

    A shallow embedding of
      - [decode] and [decodeAudioData] (services/geminiService.ts), and
      - the [AudioPlayer] component (components/AudioPlayer.tsx),
    together with the small part of the browser platform they call
    (atob, typed arrays, the Web Audio API, requestAnimationFrame).

    JavaScript numbers are modelled by exact rationals extended with the
    IEEE special values; rounding and the sign of zero are not modelled.
    Finite results are kept in lowest terms, so that equal numbers are equal
    terms. *)

From Stdlib Require Import ZArith QArith Qround Bool List String Ascii Lia.
From Stdlib Require Import DecimalString.
Import ListNotations.

Set Implicit Arguments.

(* ================================================================== *)
(** ** JavaScript numbers *)

Module JSNum.

Inductive num : Type :=
| Fin (q : Q)
| PInf
| NInf
| NaN.

Definition Qsgn (q : Q) : Z := Z.sgn (Qnum q).

Definition isFinite (x : num) : bool :=
  match x with Fin _ => true | _ => false end.

(** Sign of a number that is not NaN. *)
Definition sgn (x : num) : Z :=
  match x with
  | Fin q => Qsgn q
  | PInf => 1%Z
  | NInf => (-1)%Z
  | NaN => 0%Z
  end.

Definition inf_of_sign (z : Z) : num :=
  match z with
  | Z0 => NaN
  | Zpos _ => PInf
  | Zneg _ => NInf
  end.

(** [x - y] *)
Definition nsub (x y : num) : num :=
  match x, y with
  | NaN, _ => NaN
  | _, NaN => NaN
  | Fin a, Fin b => Fin (Qred (a - b)%Q)
  | Fin _, PInf => NInf
  | Fin _, NInf => PInf
  | PInf, PInf => NaN
  | PInf, _ => PInf
  | NInf, NInf => NaN
  | NInf, _ => NInf
  end.

(** [x * y]; an infinity times zero is NaN. *)
Definition nmul (x y : num) : num :=
  match x, y with
  | NaN, _ => NaN
  | _, NaN => NaN
  | Fin a, Fin b => Fin (Qred (a * b)%Q)
  | _, _ => inf_of_sign (sgn x * sgn y)%Z
  end.

(** [x / y]; a finite number over zero is an infinity of the sign of the
    dividend, and [0 / 0] is NaN. *)
Definition ndiv (x y : num) : num :=
  match x, y with
  | NaN, _ => NaN
  | _, NaN => NaN
  | Fin a, Fin b =>
      if Qeq_bool b 0 then inf_of_sign (Qsgn a) else Fin (Qred (a / b)%Q)
  | Fin _, _ => Fin 0
  | _, Fin b => inf_of_sign (sgn x * (if Qsgn b <? 0 then -1 else 1))%Z
  | _, _ => NaN
  end.

(** Truncation towards zero. *)
Definition Qtrunc (q : Q) : Z := Z.quot (Qnum q) (Zpos (Qden q)).

(** [x % y]: the remainder has the sign of the dividend; a zero divisor or
    an infinite dividend gives NaN. *)
Definition nrem (x y : num) : num :=
  match x, y with
  | Fin a, Fin b =>
      if Qeq_bool b 0 then NaN
      else Fin (Qred (a - b * inject_Z (Qtrunc (a / b)))%Q)
  | Fin a, PInf => Fin a
  | Fin a, NInf => Fin a
  | _, _ => NaN
  end.

(** [x >= y]; every comparison with NaN is false. *)
Definition nge (x y : num) : bool :=
  match x, y with
  | NaN, _ => false
  | _, NaN => false
  | Fin a, Fin b => Qle_bool b a
  | PInf, _ => true
  | _, NInf => true
  | _, _ => false
  end.

(** [x < 0] *)
Definition nneg (x : num) : bool :=
  match x with
  | Fin a => (Qsgn a <? 0)%Z
  | NInf => true
  | _ => false
  end.

End JSNum.
Import JSNum.

(* ================================================================== *)
(** ** Exceptions and results *)

(** A thrown value is identified by its name. *)
Definition exn := string.

Definition TypeError : exn := "TypeError"%string.
Definition RangeError : exn := "RangeError"%string.
Definition InvalidStateError : exn := "InvalidStateError"%string.
Definition NotSupportedError : exn := "NotSupportedError"%string.
Definition InvalidCharacterError : exn := "InvalidCharacterError"%string.

Inductive outcome (A : Type) : Type :=
| Returns (a : A)
| Throws (e : exn).
Arguments Throws {A} e.

Definition obind {A B} (m : outcome A) (k : A -> outcome B) : outcome B :=
  match m with
  | Returns a => k a
  | Throws e => Throws e
  end.

(** Typed arrays ignore a write past their end. *)
Fixpoint set_index {A} (l : list A) (i : nat) (v : A) : list A :=
  match l, i with
  | [], _ => []
  | _ :: t, O => v :: t
  | h :: t, S j => h :: set_index t j v
  end.

(** [for (let i = 0; i < n; i++) body] *)
Definition for_loop {T} (n : nat) (body : nat -> T -> T) (init : T) : T :=
  fold_left (fun acc i => body i acc) (seq 0 n) init.

(* ================================================================== *)
(** ** services/geminiService.ts: decoding the synthesized speech *)

Module Decoder.

(** *** Platform: [atob] (forgiving base64 decoding) *)

Definition is_ascii_whitespace (c : ascii) : bool :=
  let n := N_of_ascii c in
  (n =? 9)%N || (n =? 10)%N || (n =? 12)%N || (n =? 13)%N || (n =? 32)%N.

Definition base64_index (c : ascii) : option Z :=
  let n := Z.of_N (N_of_ascii c) in
  if (65 <=? n)%Z && (n <=? 90)%Z then Some (n - 65)%Z
  else if (97 <=? n)%Z && (n <=? 122)%Z then Some (n - 71)%Z
  else if (48 <=? n)%Z && (n <=? 57)%Z then Some (n + 4)%Z
  else if (n =? 43)%Z then Some 62%Z
  else if (n =? 47)%Z then Some 63%Z
  else None.

Definition strip_padding (l : list ascii) : list ascii :=
  if (List.length l mod 4 =? 0)%nat then
    match rev l with
    | "="%char :: "="%char :: r => rev r
    | "="%char :: r => rev r
    | _ => l
    end
  else l.

Fixpoint sextets (l : list ascii) : option (list Z) :=
  match l with
  | [] => Some []
  | c :: t =>
      match base64_index c, sextets t with
      | Some v, Some vs => Some (v :: vs)
      | _, _ => None
      end
  end.

(** Four sextets give three bytes; a trailing group of three gives two bytes
    and one of two gives one byte, the left-over bits being dropped. *)
Fixpoint octets (vs : list Z) : list Z :=
  match vs with
  | a :: b :: c :: d :: rest =>
      (a * 4 + b / 16)%Z :: ((b mod 16) * 16 + c / 4)%Z
        :: ((c mod 4) * 64 + d)%Z :: octets rest
  | [a; b; c] => [(a * 4 + b / 16)%Z; ((b mod 16) * 16 + c / 4)%Z]
  | [a; b] => [(a * 4 + b / 16)%Z]
  | _ => []
  end.

Definition char_of_code (z : Z) : ascii := ascii_of_N (Z.to_N z).

(** [atob s] is [None] when the platform throws InvalidCharacterError,
    and otherwise the binary string, one character per byte. *)
Definition atob (s : string) : option string :=
  let l := filter (fun c => negb (is_ascii_whitespace c))
                  (list_ascii_of_string s) in
  let l := strip_padding l in
  if (List.length l mod 4 =? 1)%nat then None
  else
    match sextets l with
    | None => None
    | Some vs => Some (string_of_list_ascii (map char_of_code (octets vs)))
    end.

(** [binaryString.charCodeAt(i)] for [i] within the string. *)
Definition charCodeAt (s : string) (i : nat) : Z :=
  match String.get i s with
  | Some c => Z.of_N (N_of_ascii c)
  | None => 0%Z
  end.

(** *** [decode] *)

(** A [Uint8Array] of [len] zeros, filled index by index; an element store
    keeps the low eight bits. *)
Definition decode (base64 : string) : outcome (list Z) :=
  match atob base64 with
  | None => Throws InvalidCharacterError
  | Some binaryString =>
      let len := String.length binaryString in
      let bytes := repeat 0%Z len in
      Returns
        (for_loop len
           (fun i bytes => set_index bytes i (charCodeAt binaryString i mod 256)%Z)
           bytes)
  end.

(** *** Platform: [Int16Array] over a byte buffer, [createBuffer] *)

(** Little-endian signed 16-bit value of a byte pair. *)
Definition int16_of_le (lo hi : Z) : Z :=
  let u := Z.lor lo (Z.shiftl hi 8) in
  if (u <? 32768)%Z then u else (u - 65536)%Z.

Fixpoint int16_view (bytes : list Z) : list Z :=
  match bytes with
  | lo :: hi :: rest => int16_of_le lo hi :: int16_view rest
  | _ => []
  end.

(** [new Int16Array(buffer)] throws a RangeError when the byte length of the
    buffer is not a multiple of two. *)
Definition Int16Array_of (bytes : list Z) : outcome (list Z) :=
  if Nat.even (List.length bytes) then Returns (int16_view bytes)
  else Throws RangeError.

Record AudioBuffer : Type := mkAudioBuffer {
  numberOfChannels : nat;
  buf_length : nat;                  (* [length], in sample frames *)
  sampleRate : Z;
  channelData : list (list num)      (* one Float32Array per channel *)
}.

(** [buffer.duration] *)
Definition duration (b : AudioBuffer) : num :=
  ndiv (Fin (inject_Z (Z.of_nat (buf_length b)))) (Fin (inject_Z (sampleRate b))).

(** The context used for decoding: the range of sample rates it supports
    (at least 8000 to 96000 on every implementation). *)
Record BaseAudioContext : Type := mkContext {
  minSampleRate : Z;
  maxSampleRate : Z
}.

Definition maxChannels : nat := 32.

(** [ctx.createBuffer(numberOfChannels, length, sampleRate)] throws a
    NotSupportedError when an argument is zero or outside its range, and
    otherwise returns a zero-filled buffer. *)
Definition createBuffer (ctx : BaseAudioContext)
    (numChannels frameCount : nat) (rate : Z) : outcome AudioBuffer :=
  if (numChannels =? 0)%nat || (maxChannels <? numChannels)%nat
     || (frameCount =? 0)%nat
     || (rate <? minSampleRate ctx)%Z || (maxSampleRate ctx <? rate)%Z
     || (rate <=? 0)%Z
  then Throws NotSupportedError
  else Returns (mkAudioBuffer numChannels frameCount rate
                  (repeat (repeat (Fin 0) frameCount) numChannels)).

(** [dataInt16[k] / 32768.0]; a read past the end is undefined, whose
    quotient is NaN. *)
Definition sample_at (dataInt16 : list Z) (k : nat) : num :=
  match nth_error dataInt16 k with
  | Some v => ndiv (Fin (inject_Z v)) (Fin 32768)
  | None => NaN
  end.

(** [channelData[i] = v] on the array returned by [getChannelData(channel)],
    which aliases the buffer's own storage. *)
Definition store_sample (b : AudioBuffer) (channel i : nat) (v : num)
  : AudioBuffer :=
  match nth_error (channelData b) channel with
  | Some ch =>
      mkAudioBuffer (numberOfChannels b) (buf_length b) (sampleRate b)
        (set_index (channelData b) channel (set_index ch i v))
  | None => b
  end.

(** *** [decodeAudioData] *)

Definition defaultSampleRate : Z := 24000.

Definition decodeAudioData (base64Data : string) (ctx : BaseAudioContext)
    (sampleRate : Z) : outcome AudioBuffer :=
  obind (decode base64Data) (fun bytes =>
  obind (Int16Array_of bytes) (fun dataInt16 =>
  let numChannels := 1%nat in
  let frameCount := (List.length dataInt16 / numChannels)%nat in
  obind (createBuffer ctx numChannels frameCount sampleRate) (fun buffer =>
  Returns
    (for_loop numChannels (fun channel buffer =>
       for_loop frameCount (fun i buffer =>
         store_sample buffer channel i
           (sample_at dataInt16 (i * numChannels + channel)))
         buffer)
       buffer)))).

(** *** Notions used to state the properties of the decoder *)

(** A sample rate the context accepts. *)
Definition rate_supported (ctx : BaseAudioContext) (rate : Z) : Prop :=
  (minSampleRate ctx <= rate <= maxSampleRate ctx)%Z /\ (0 < rate)%Z.

(** The bytes of a binary string, as [decode] stores them. *)
Definition bytes_of (bin : string) : list Z :=
  map (fun i => (charCodeAt bin i mod 256)%Z) (seq 0 (String.length bin)).

(** The [i]-th sample of raw PCM, as the format defines it: two bytes,
    little-endian, read as a signed 16-bit integer. *)
Definition pcm16_sample (bin : string) (i : nat) : Z :=
  let u := (charCodeAt bin (2 * i) + 256 * charCodeAt bin (2 * i + 1))%Z in
  if (u <? 32768)%Z then u else (u - 65536)%Z.

(** A context with the range of rates every implementation supports. *)
Definition ctx0 : BaseAudioContext := mkContext 8000 96000.

End Decoder.

(* ================================================================== *)
(** ** components/AudioPlayer.tsx *)

Module Player.
Import Decoder.

Inductive ContextState : Type := suspended | running | closed.

(** What the functions created by one render have captured: the state
    variables and the prop as they were at that render.  Refs are not
    captured; they are read when the function runs. *)
Record Closure : Type := mkClosure {
  c_isPlaying : bool;
  c_playbackSpeed : num;
  c_audioBuffer : option AudioBuffer
}.

(** An [AudioBufferSourceNode]. *)
Record SourceNode : Type := mkNode {
  buffer : option AudioBuffer;
  playbackRate : num;
  connected : bool;
  started : option num;        (* the offset given to [start] *)
  stopped : bool;
  ended : bool;                (* its ended event has been dispatched *)
  onended : option Closure
}.

Definition new_node : SourceNode :=
  mkNode None (Fin 1) false None false false None.

Record State : Type := mkState {
  audioBuffer : option AudioBuffer;   (* the [audioBuffer] prop *)
  isPlaying : bool;   (* useState *)
  playbackSpeed : num;   (* useState *)
  progress : num;   (* useState *)
  audioContextRef : bool;   (* whether [audioContextRef.current] is set *)
  sourceNodeRef : option nat;   (* the node held by [sourceNodeRef.current] *)
  startTimeRef : num;
  pauseTimeRef : num;
  animationFrameRef : nat;
  ctxState : ContextState;   (* [audioContext.state] *)
  currentTime : Q;   (* [audioContext.currentTime] *)
  nodes : list SourceNode;   (* every source node created so far, by identity *)
  frameRequests : list (nat * Closure);   (* pending requestAnimationFrame callbacks *)
  nextFrameId : nat;
  resuming : list Closure   (* calls of [playAudio] waiting on [resume()] *)
}.

Definition with_isPlaying (v : bool) (s : State) : State :=
  mkState (audioBuffer s) v (playbackSpeed s) (progress s)
    (audioContextRef s) (sourceNodeRef s) (startTimeRef s) (pauseTimeRef s)
    (animationFrameRef s) (ctxState s) (currentTime s) (nodes s)
    (frameRequests s) (nextFrameId s) (resuming s).

Definition with_playbackSpeed (v : num) (s : State) : State :=
  mkState (audioBuffer s) (isPlaying s) v (progress s) (audioContextRef s)
    (sourceNodeRef s) (startTimeRef s) (pauseTimeRef s)
    (animationFrameRef s) (ctxState s) (currentTime s) (nodes s)
    (frameRequests s) (nextFrameId s) (resuming s).

Definition with_progress (v : num) (s : State) : State :=
  mkState (audioBuffer s) (isPlaying s) (playbackSpeed s) v
    (audioContextRef s) (sourceNodeRef s) (startTimeRef s) (pauseTimeRef s)
    (animationFrameRef s) (ctxState s) (currentTime s) (nodes s)
    (frameRequests s) (nextFrameId s) (resuming s).

Definition with_sourceNodeRef (v : option nat) (s : State) : State :=
  mkState (audioBuffer s) (isPlaying s) (playbackSpeed s) (progress s)
    (audioContextRef s) v (startTimeRef s) (pauseTimeRef s)
    (animationFrameRef s) (ctxState s) (currentTime s) (nodes s)
    (frameRequests s) (nextFrameId s) (resuming s).

Definition with_startTimeRef (v : num) (s : State) : State :=
  mkState (audioBuffer s) (isPlaying s) (playbackSpeed s) (progress s)
    (audioContextRef s) (sourceNodeRef s) v (pauseTimeRef s)
    (animationFrameRef s) (ctxState s) (currentTime s) (nodes s)
    (frameRequests s) (nextFrameId s) (resuming s).

Definition with_pauseTimeRef (v : num) (s : State) : State :=
  mkState (audioBuffer s) (isPlaying s) (playbackSpeed s) (progress s)
    (audioContextRef s) (sourceNodeRef s) (startTimeRef s) v
    (animationFrameRef s) (ctxState s) (currentTime s) (nodes s)
    (frameRequests s) (nextFrameId s) (resuming s).

Definition with_animationFrameRef (v : nat) (s : State) : State :=
  mkState (audioBuffer s) (isPlaying s) (playbackSpeed s) (progress s)
    (audioContextRef s) (sourceNodeRef s) (startTimeRef s) (pauseTimeRef s)
    v (ctxState s) (currentTime s) (nodes s) (frameRequests s)
    (nextFrameId s) (resuming s).

Definition with_ctxState (v : ContextState) (s : State) : State :=
  mkState (audioBuffer s) (isPlaying s) (playbackSpeed s) (progress s)
    (audioContextRef s) (sourceNodeRef s) (startTimeRef s) (pauseTimeRef s)
    (animationFrameRef s) v (currentTime s) (nodes s) (frameRequests s)
    (nextFrameId s) (resuming s).

Definition with_currentTime (v : Q) (s : State) : State :=
  mkState (audioBuffer s) (isPlaying s) (playbackSpeed s) (progress s)
    (audioContextRef s) (sourceNodeRef s) (startTimeRef s) (pauseTimeRef s)
    (animationFrameRef s) (ctxState s) v (nodes s) (frameRequests s)
    (nextFrameId s) (resuming s).

Definition with_nodes (v : list SourceNode) (s : State) : State :=
  mkState (audioBuffer s) (isPlaying s) (playbackSpeed s) (progress s)
    (audioContextRef s) (sourceNodeRef s) (startTimeRef s) (pauseTimeRef s)
    (animationFrameRef s) (ctxState s) (currentTime s) v (frameRequests s)
    (nextFrameId s) (resuming s).

Definition with_frameRequests (v : list (nat * Closure)) (s : State) : State :=
  mkState (audioBuffer s) (isPlaying s) (playbackSpeed s) (progress s)
    (audioContextRef s) (sourceNodeRef s) (startTimeRef s) (pauseTimeRef s)
    (animationFrameRef s) (ctxState s) (currentTime s) (nodes s) v
    (nextFrameId s) (resuming s).

Definition with_nextFrameId (v : nat) (s : State) : State :=
  mkState (audioBuffer s) (isPlaying s) (playbackSpeed s) (progress s)
    (audioContextRef s) (sourceNodeRef s) (startTimeRef s) (pauseTimeRef s)
    (animationFrameRef s) (ctxState s) (currentTime s) (nodes s)
    (frameRequests s) v (resuming s).

Definition with_resuming (v : list Closure) (s : State) : State :=
  mkState (audioBuffer s) (isPlaying s) (playbackSpeed s) (progress s)
    (audioContextRef s) (sourceNodeRef s) (startTimeRef s) (pauseTimeRef s)
    (animationFrameRef s) (ctxState s) (currentTime s) (nodes s)
    (frameRequests s) (nextFrameId s) v.

(** *** The monad of handlers: state, and exceptions that keep the state
    reached when they are thrown *)

Definition M (A : Type) : Type := State -> outcome A * State.

Definition ret {A} (a : A) : M A := fun s => (Returns a, s).
Definition throw {A} (e : exn) : M A := fun s => (Throws e, s).
Definition bind {A B} (m : M A) (k : A -> M B) : M B :=
  fun s =>
    match m s with
    | (Returns a, s') => k a s'
    | (Throws e, s') => (Throws e, s')
    end.
Definition get : M State := fun s => (Returns s, s).
Definition modify (f : State -> State) : M unit := fun s => (Returns tt, f s).
(** [try { m } catch (e) { }] *)
Definition try_catch (m : M unit) : M unit :=
  fun s => (Returns tt, snd (m s)).

Notation "x <- m ;; k" := (bind m (fun x => k))
  (at level 61, m at next level, right associativity).
Notation "m ;; k" := (bind m (fun _ => k))
  (at level 61, right associativity).

(** *** Platform: the Web Audio API and requestAnimationFrame *)

Definition update_node (id : nat) (f : SourceNode -> SourceNode) : M unit :=
  modify (fun s =>
    match nth_error (nodes s) id with
    | Some n => with_nodes (set_index (nodes s) id (f n)) s
    | None => s
    end).

(** [ctx.createBufferSource()] *)
Definition createBufferSource : M nat :=
  fun s => (Returns (List.length (nodes s)), with_nodes (nodes s ++ [new_node]) s).

(** [source.buffer = b] *)
Definition set_buffer (id : nat) (b : AudioBuffer) : M unit :=
  update_node id (fun n =>
    mkNode (Some b) (playbackRate n) (connected n) (started n) (stopped n)
      (ended n) (onended n)).

(** [source.playbackRate.value = v] and
    [source.playbackRate.setValueAtTime(v, ctx.currentTime)]: the rate
    changes at once; a value that is not finite is a TypeError. *)
Definition set_playbackRate (id : nat) (v : num) : M unit :=
  if isFinite v then
    update_node id (fun n =>
      mkNode (buffer n) v (connected n) (started n) (stopped n) (ended n)
        (onended n))
  else throw TypeError.

(** [source.connect(ctx.destination)] and [source.disconnect()] *)
Definition set_connected (id : nat) (c : bool) : M unit :=
  update_node id (fun n =>
    mkNode (buffer n) (playbackRate n) c (started n) (stopped n) (ended n)
      (onended n)).

(** [source.start(0, offset)]: an offset that is not finite is a TypeError,
    a negative one a RangeError, a second start an InvalidStateError. *)
Definition start (id : nat) (offset : num) : M unit :=
  s <- get ;;
  if negb (isFinite offset) then throw TypeError
  else if nneg offset then throw RangeError
  else
    match nth_error (nodes s) id with
    | Some n =>
        match started n with
        | Some _ => throw InvalidStateError
        | None =>
            update_node id (fun n =>
              mkNode (buffer n) (playbackRate n) (connected n) (Some offset)
                (stopped n) (ended n) (onended n))
        end
    | None => ret tt
    end.

(** [source.stop()]: an InvalidStateError on a node never started. *)
Definition stop (id : nat) : M unit :=
  s <- get ;;
  match nth_error (nodes s) id with
  | Some n =>
      match started n with
      | None => throw InvalidStateError
      | Some _ =>
          update_node id (fun n =>
            mkNode (buffer n) (playbackRate n) (connected n) (started n)
              true (ended n) (onended n))
      end
  | None => ret tt
  end.

(** [source.onended = f] *)
Definition set_onended (id : nat) (k : Closure) : M unit :=
  update_node id (fun n =>
    mkNode (buffer n) (playbackRate n) (connected n) (started n) (stopped n)
      (ended n) (Some k)).

Definition mark_ended (id : nat) : M unit :=
  update_node id (fun n =>
    mkNode (buffer n) (playbackRate n) (connected n) (started n) (stopped n)
      true (onended n)).

(** A node renders audio from its start until it is stopped or ends. *)
Definition live (n : SourceNode) : bool :=
  match started n with
  | Some _ => negb (stopped n) && negb (ended n)
  | None => false
  end.

Definition live_count (s : State) : nat :=
  List.length (filter live (nodes s)).

Definition requestAnimationFrame (k : Closure) : M nat :=
  fun s =>
    let id := nextFrameId s in
    (Returns id,
     with_nextFrameId (S id) (with_frameRequests (frameRequests s ++ [(id, k)]) s)).

Definition cancelAnimationFrame (id : nat) : M unit :=
  modify (fun s =>
    with_frameRequests
      (filter (fun r => negb (fst r =? id)%nat) (frameRequests s)) s).

(** *** The component *)

(** The closure environment of the functions of the current render. *)
Definition capture (s : State) : Closure :=
  mkClosure (isPlaying s) (playbackSpeed s) (audioBuffer s).

(** [(audioContextRef.current.currentTime - startTimeRef.current) * speed] *)
Definition elapsed_at (speed : num) (s : State) : num :=
  nmul (nsub (Fin (currentTime s)) (startTimeRef s)) speed.

Definition stopAudio : M unit :=
  s <- get ;;
  match sourceNodeRef s with
  | Some id =>
      try_catch (stop id ;; set_connected id false) ;;
      modify (with_sourceNodeRef None)
  | None => ret tt
  end ;;
  s <- get ;;
  (if (animationFrameRef s =? 0)%nat then ret tt
   else cancelAnimationFrame (animationFrameRef s)) ;;
  modify (with_isPlaying false).

Definition updateProgress (k : Closure) : M unit :=
  s <- get ;;
  match c_audioBuffer k with
  | Some _ =>
      if negb (audioContextRef s) || negb (c_isPlaying k) then ret tt
      else
        let elapsed := elapsed_at (c_playbackSpeed k) s in
        id <- requestAnimationFrame k ;;
        modify (with_animationFrameRef id)
  | None => ret tt
  end.

(** The handler installed by [playAudio] on the node it starts. *)
Definition onended_handler (k : Closure) : M unit :=
  s <- get ;;
  match c_audioBuffer k with
  | Some audioBuffer =>
      if audioContextRef s
         && nge (elapsed_at (c_playbackSpeed k) s)
                (nsub (duration audioBuffer) (Fin (1 # 10)))
      then
        modify (with_isPlaying false) ;;
        modify (with_pauseTimeRef (Fin 0)) ;;
        modify (with_progress (Fin 0))
      else ret tt
  | None => ret tt
  end.

(** [playAudio] from the creation of the source node on; [k] is the closure
    of the render whose [playAudio] was called. *)
Definition playAudio_resumed (k : Closure) : M unit :=
  match c_audioBuffer k with
  | Some audioBuffer =>
      source <- createBufferSource ;;
      set_buffer source audioBuffer ;;
      set_playbackRate source (c_playbackSpeed k) ;;
      set_connected source true ;;
      s <- get ;;
      let offset := nrem (pauseTimeRef s) (duration audioBuffer) in
      start source offset ;;
      s <- get ;;
      modify (with_startTimeRef
                (nsub (Fin (currentTime s)) (ndiv offset (c_playbackSpeed k)))) ;;
      modify (with_sourceNodeRef (Some source)) ;;
      modify (with_isPlaying true) ;;
      set_onended source k ;;
      updateProgress k
  | None => ret tt
  end.

(** An async function either settles without waiting, or is suspended at
    its [await]. *)
Inductive Async : Type :=
| Settled (r : outcome unit) (s : State)
| Awaiting (k : Closure) (s : State).

Definition playAudio (s : State) : Async :=
  match audioBuffer s with
  | None => Settled (Returns tt) s
  | Some _ =>
      if negb (audioContextRef s) then Settled (Returns tt) s
      else
        match ctxState s with
        | suspended => Awaiting (capture s) s
        | _ => let (r, s') := playAudio_resumed (capture s) s in Settled r s'
        end
  end.

(** The state in which the call has left the component. *)
Definition state_of (a : Async) : State :=
  match a with
  | Settled _ s => s
  | Awaiting _ s => s
  end.

(** How [await audioContextRef.current.resume()] ends. *)
Inductive ResumeOutcome : Type :=
| Resolved
| Rejected (reason : exn).

(** The rest of a suspended [playAudio], run when the promise settles. *)
Definition playAudio_settle (k : Closure) (o : ResumeOutcome) : M unit :=
  match o with
  | Resolved => playAudio_resumed k
  | Rejected reason => throw reason
  end.

Definition pauseAudio : M unit :=
  s <- get ;;
  match sourceNodeRef s with
  | Some id =>
      if negb (audioContextRef s) then ret tt
      else
        let elapsed := elapsed_at (playbackSpeed s) s in
        modify (with_pauseTimeRef elapsed) ;;
        stop id ;;
        set_connected id false ;;
        modify (with_sourceNodeRef None) ;;
        modify (with_isPlaying false) ;;
        s <- get ;;
        if (animationFrameRef s =? 0)%nat then ret tt
        else cancelAnimationFrame (animationFrameRef s)
  | None => ret tt
  end.

Definition resetAudio : M unit :=
  stopAudio ;;
  modify (with_pauseTimeRef (Fin 0)) ;;
  modify (with_progress (Fin 0)).

Definition togglePlay (s : State) : Async :=
  if isPlaying s then let (r, s') := pauseAudio s in Settled r s'
  else playAudio s.

(** [newSpeed] is [parseFloat(e.target.value)]. *)
Definition handleSpeedChange (newSpeed : num) : M unit :=
  s <- get ;;
  modify (with_playbackSpeed newSpeed) ;;
  if isPlaying s then
    match sourceNodeRef s with
    | Some id =>
        if audioContextRef s then set_playbackRate id newSpeed
        else throw TypeError
    | None => ret tt
    end
  else ret tt.

(** The component once mounted with a buffer: the effect has created the
    audio context, whose state and clock are the platform's. *)
Definition mounted (b : AudioBuffer) (cs : ContextState) (t0 : Q) : State :=
  mkState (Some b) false (Fin 1) (Fin 0) true None (Fin 0) (Fin 0) 0
    cs t0 [] [] 1 [].

(** *** The event loop *)

Inductive Event : Type :=
| ClickPlayPause
| ClickRestart
| SelectSpeed (newSpeed : num)
| ClockAdvance (dt : Q)
| ResumeSettled (o : ResumeOutcome)
| NodeEnded (id : nat)
| AnimationFrame.

(** State left by a handler; an exception it lets escape is an uncaught
    error or an unhandled rejection, and the state stays as it is then. *)
Definition after {A} (m : M A) (s : State) : State := snd (m s).

Definition run_all {A} (f : A -> M unit) (l : list A) (s : State) : State :=
  fold_left (fun s a => after (f a) s) l s.

Definition step (e : Event) (s : State) : State :=
  match e with
  | ClickPlayPause =>
      match togglePlay s with
      | Settled _ s' => s'
      | Awaiting k s' => with_resuming (resuming s' ++ [k]) s'
      end
  | ClickRestart => after resetAudio s
  | SelectSpeed v => after (handleSpeedChange v) s
  | ClockAdvance dt =>
      match ctxState s with
      | running => with_currentTime (Qred (currentTime s + dt)) s
      | _ => s
      end
  | ResumeSettled o =>
      let s1 := with_resuming [] s in
      let s2 := match o with
                | Resolved => with_ctxState running s1
                | Rejected _ => s1
                end in
      run_all (fun k => playAudio_settle k o) (resuming s) s2
  | NodeEnded id =>
      match nth_error (nodes s) id with
      | Some n =>
          let s1 := after (mark_ended id) s in
          match onended n with
          | Some k => after (onended_handler k) s1
          | None => s1
          end
      | None => s
      end
  | AnimationFrame =>
      run_all (fun r => updateProgress (snd r)) (frameRequests s)
        (with_frameRequests [] s)
  end.

(** When the platform can deliver an event. *)
Definition enabled (e : Event) (s : State) : Prop :=
  match e with
  | ClockAdvance dt => (0 <= dt)%Q
  | ResumeSettled _ => ctxState s = suspended /\ resuming s <> []
  | NodeEnded id =>
      exists n, nth_error (nodes s) id = Some n
                /\ started n <> None /\ ended n = false
  | _ => True
  end.

Inductive reachable (s0 : State) : State -> Prop :=
| reach_init : reachable s0 s0
| reach_step : forall s e,
    reachable s0 s -> enabled e s -> reachable s0 (step e s).

Definition run (es : list Event) (s : State) : State :=
  fold_left (fun s e => step e s) es s.

(** *** Notions used to state the properties of the player *)

(** The node started by [playAudio], and the state it leaves. *)
Definition started_node (k : Closure) (buf : AudioBuffer) (offset : num) :=
  mkNode (Some buf) (c_playbackSpeed k) true (Some offset) false false
    (Some k).

Definition playing_state (k : Closure) (buf : AudioBuffer) (offset : num)
    (s : State) : State :=
  mkState (audioBuffer s) true (playbackSpeed s) (progress s)
    (audioContextRef s) (Some (List.length (nodes s)))
    (nsub (Fin (currentTime s)) (ndiv offset (c_playbackSpeed k)))
    (pauseTimeRef s) (animationFrameRef s) (ctxState s) (currentTime s)
    (nodes s ++ [started_node k buf offset])
    (frameRequests s) (nextFrameId s) (resuming s).

(** The node left behind when [playAudio] throws before [start] returns. *)
Definition unstarted_node (k : Closure) (buf : AudioBuffer) : SourceNode :=
  if isFinite (c_playbackSpeed k)
  then mkNode (Some buf) (c_playbackSpeed k) true None false false None
  else mkNode (Some buf) (Fin 1) false None false false None.



(** A property of the state that a handler keeps, whether it returns or
    throws. *)
Definition preserves {A} (P : State -> Prop) (m : M A) : Prop :=
  forall s, P s -> P (snd (m s)).

Definition progress_zero (s : State) : Prop := progress s = Fin 0.

Definition no_live (l : list SourceNode) : Prop :=
  forall j m, nth_error l j = Some m -> live m = false.

(** Every live node is the one held by [sourceNodeRef], while playing, and
    at most one call of [playAudio] waits for the device, while not
    playing. *)
Definition single_node (s : State) : Prop :=
  (forall id n, nth_error (nodes s) id = Some n -> live n = true ->
     sourceNodeRef s = Some id /\ isPlaying s = true)
  /\ (resuming s = [] \/ exists k, resuming s = [k] /\ isPlaying s = false).

(** Runs in which the play button is not clicked again while an earlier
    click still waits for the device, and in which the ended event of a
    stopped node is delivered before a later node is started. *)
Definition orderly (e : Event) (s : State) : Prop :=
  match e with
  | ClickPlayPause => resuming s = []
  | NodeEnded id =>
      forall j n, nth_error (nodes s) j = Some n -> live n = true -> j = id
  | _ => True
  end.

Inductive orderly_reachable (s0 : State) : State -> Prop :=
| orderly_init : orderly_reachable s0 s0
| orderly_step : forall s e,
    orderly_reachable s0 s -> enabled e s -> orderly e s ->
    orderly_reachable s0 (step e s).

(** The progress the specification describes: elapsed over duration,
    clamped to the interval from 0 to 1. *)
Definition spec_progress (elapsed duration : num) : num :=
  let r := ndiv elapsed duration in
  if nge r (Fin 1) then Fin 1
  else if nge (Fin 0) r then Fin 0
  else r.

(** A buffer for the examples: [seconds] of silence at 8000 Hz. *)
Definition silence (seconds : Z) : AudioBuffer :=
  let n := Z.to_nat (8000 * seconds) in
  mkAudioBuffer 1 n 8000 [repeat (Fin 0) n].

End Player.

(* ================================================================== *)
(** ** components/AudioPlayer.tsx: the effect that owns the audio context *)

Module PlayerEffect.
Import Player.

(** [audioContextRef.current?.suspend()]: a running context stops
    rendering, which is taken here at the call, not when the platform has
    processed the request; on a closed context the promise is rejected and
    nobody waits for it. *)
Definition suspend_context : M unit :=
  modify (fun s =>
    if audioContextRef s then
      match ctxState s with
      | running => with_ctxState suspended s
      | _ => s
      end
    else s).

(** The clean-up function returned by the effect, run when the component
    is removed. *)
Definition cleanup : M unit :=
  stopAudio ;; suspend_context.

(** A state from which a click on play resumes at position [p]: paused or
    stopped on a running context, with speed [v] and a buffer of [d]
    seconds. *)
Definition ready_to_play (s : State) (buf : Decoder.AudioBuffer)
    (d v p : Q) : Prop :=
  isPlaying s = false
  /\ audioBuffer s = Some buf
  /\ audioContextRef s = true
  /\ ctxState s = running
  /\ Decoder.duration buf = Fin d
  /\ playbackSpeed s = Fin v
  /\ pauseTimeRef s = Fin p
  /\ 0 < v /\ 0 <= p /\ p < d.

(** A node whose rate has been set to [v]. *)
Definition with_rate (v : num) (n : SourceNode) : SourceNode :=
  mkNode (buffer n) v (connected n) (started n) (stopped n) (ended n)
    (onended n).

(** Every closure waiting for the device was taken while not playing, and
    no animation frame was ever requested. *)
Definition no_frames (s : State) : Prop :=
  frameRequests s = []
  /\ animationFrameRef s = 0%nat
  /\ Forall (fun k => c_isPlaying k = false) (resuming s).



(** Paused at position 7 of a buffer of three seconds. *)
Definition paused_past_the_end : State :=
  mkState (Some (silence 3)) false (Fin 1) (Fin 0) true None (Fin 0)
    (Fin 7) 0 running 0 [] [] 1 [].

End PlayerEffect.

(* ================================================================== *)
(** ** services/geminiService.ts: the calls to the model *)

Module Service.

(** How a promise settles; a rejection is kept by its message. *)
Inductive settled (A : Type) : Type :=
| Fulfilled (a : A)
| RejectedWith (message : string).
Arguments RejectedWith {A} message.

Inductive Mode : Type := speed | detailed.

Inductive Part : Type :=
| InlinePart (mimeType data : string)
| TextPart (text : string).

Record Request : Type := mkRequest {
  model : string;
  parts : list Part;
  thinkingBudget : option Z;
  responseModalities : list string;
  voiceName : option string
}.

(** The fields of a response that the service reads; each may be absent. *)
Record RInline : Type := mkRInline { r_data : option string }.
Record RPart : Type := mkRPart { r_inlineData : option RInline }.
Record RContent : Type := mkRContent { r_parts : option (list RPart) }.
Record Candidate : Type := mkCandidate { r_content : option RContent }.
Record Response : Type := mkResponse {
  r_text : option string;
  r_candidates : option (list Candidate)
}.

(** A line written with [console.error]: the label and the error. *)
Definition LogLine : Type := (string * string)%type.

(** The empty string is falsy. *)
Definition truthy (s : string) : bool :=
  match s with
  | EmptyString => false
  | _ => true
  end.

Definition translate_prompt (targetLanguage : string) : string :=
  ("You are a helpful assistant for people who cannot read well. 
            1. Analyze the provided document (image or PDF).
            2. Extract all the visible text.
            3. Translate the extracted text into " ++ targetLanguage ++ ".
            4. Return ONLY the translated text. Do not add markdown formatting like **bold** or headers unless they are in the original document structure. Keep it simple and readable.")%string.

Definition translate_request (base64Data mimeType targetLanguage : string)
    (mode : Mode) : Request :=
  let thinkingBudget :=
    match mode with speed => 0%Z | detailed => 2048%Z end in
  mkRequest "gemini-3-flash-preview"
    [InlinePart mimeType base64Data; TextPart (translate_prompt targetLanguage)]
    (Some thinkingBudget) [] None.

(** [generateContent] stands for [ai.models.generateContent]. *)
Definition translateDocument (generateContent : Request -> settled Response)
    (base64Data mimeType targetLanguage : string) (mode : Mode)
  : settled string * list LogLine :=
  match generateContent
          (translate_request base64Data mimeType targetLanguage mode) with
  | Fulfilled response =>
      (Fulfilled
         match r_text response with
         | Some t => if truthy t then t else "Could not extract text."%string
         | None => "Could not extract text."%string
         end, [])
  | RejectedWith error =>
      (RejectedWith "Failed to translate document.",
       [("Translation error:"%string, error)])
  end.

Definition speech_request (text : string) : Request :=
  mkRequest "gemini-2.5-flash-preview-tts" [TextPart text] None
    ["AUDIO"%string] (Some "Kore"%string).

(** [response.candidates?.[0]?.content?.parts?.[0]?.inlineData?.data] *)
Definition first_audio (response : Response) : option string :=
  match r_candidates response with
  | Some (c :: _) =>
      match r_content c with
      | Some content =>
          match r_parts content with
          | Some (p :: _) =>
              match r_inlineData p with
              | Some i => r_data i
              | None => None
              end
          | _ => None
          end
      | None => None
      end
  | _ => None
  end.

Definition generateSpeech (generateContent : Request -> settled Response)
    (text : string) : settled string * list LogLine :=
  let attempt :=
    match generateContent (speech_request text) with
    | Fulfilled response =>
        match first_audio response with
        | Some audioData =>
            if truthy audioData then Fulfilled audioData
            else RejectedWith "No audio data received."
        | None => RejectedWith "No audio data received."
        end
    | RejectedWith error => RejectedWith error
    end in
  match attempt with
  | Fulfilled audioData => (Fulfilled audioData, [])
  | RejectedWith error =>
      (RejectedWith "Failed to generate speech.",
       [("TTS error:"%string, error)])
  end.

End Service.

(* ================================================================== *)
(** ** App.tsx: from the document to the audio buffer

    The component that calls the service above (the second of the two
    versions kept in the file).  The asynchronous handlers are followed from their call to their end;
    what other handlers do while they wait is not modelled. *)

Module App.
Import Decoder Service.

Inductive AppStatus : Type :=
| IDLE | TRANSLATING | GENERATING_AUDIO | READY | ERROR.

Record UploadedFile : Type := mkFile {
  f_name : string;
  f_type : string;
  f_data : string
}.

Record HistoryItem : Type := mkItem {
  id : string;
  timestamp : Z;
  fileName : string;
  targetLanguage : string;
  text : string
}.

(** The state of the component that these handlers read or write, the
    entry of the local storage they keep, the temporary audio contexts
    still open, and the console. *)
Record AppState : Type := mkApp {
  status : AppStatus;
  file : option UploadedFile;
  targetLang : string;
  processingMode : Mode;
  translatedText : string;
  audioBuffer : option AudioBuffer;
  errorMsg : string;
  history : list HistoryItem;
  stored_history : option (list HistoryItem);
  open_contexts : nat;
  console : list LogLine;
  showHistory : bool
}.

Definition set_status v (a : AppState) : AppState :=
  mkApp v (file a) (targetLang a) (processingMode a) (translatedText a)
    (audioBuffer a) (errorMsg a) (history a) (stored_history a)
    (open_contexts a) (console a) (showHistory a).

Definition set_translatedText v (a : AppState) : AppState :=
  mkApp (status a) (file a) (targetLang a) (processingMode a) v
    (audioBuffer a) (errorMsg a) (history a) (stored_history a)
    (open_contexts a) (console a) (showHistory a).

Definition set_audioBuffer v (a : AppState) : AppState :=
  mkApp (status a) (file a) (targetLang a) (processingMode a)
    (translatedText a) v (errorMsg a) (history a) (stored_history a)
    (open_contexts a) (console a) (showHistory a).

Definition set_errorMsg v (a : AppState) : AppState :=
  mkApp (status a) (file a) (targetLang a) (processingMode a)
    (translatedText a) (audioBuffer a) v (history a) (stored_history a)
    (open_contexts a) (console a) (showHistory a).

Definition set_history v (a : AppState) : AppState :=
  mkApp (status a) (file a) (targetLang a) (processingMode a)
    (translatedText a) (audioBuffer a) (errorMsg a) v (stored_history a)
    (open_contexts a) (console a) (showHistory a).

Definition set_stored_history v (a : AppState) : AppState :=
  mkApp (status a) (file a) (targetLang a) (processingMode a)
    (translatedText a) (audioBuffer a) (errorMsg a) (history a) v
    (open_contexts a) (console a) (showHistory a).

Definition set_open_contexts v (a : AppState) : AppState :=
  mkApp (status a) (file a) (targetLang a) (processingMode a)
    (translatedText a) (audioBuffer a) (errorMsg a) (history a)
    (stored_history a) v (console a) (showHistory a).

Definition set_file v (a : AppState) : AppState :=
  mkApp (status a) v (targetLang a) (processingMode a) (translatedText a)
    (audioBuffer a) (errorMsg a) (history a) (stored_history a)
    (open_contexts a) (console a) (showHistory a).

Definition set_targetLang v (a : AppState) : AppState :=
  mkApp (status a) (file a) v (processingMode a) (translatedText a)
    (audioBuffer a) (errorMsg a) (history a) (stored_history a)
    (open_contexts a) (console a) (showHistory a).

Definition set_showHistory v (a : AppState) : AppState :=
  mkApp (status a) (file a) (targetLang a) (processingMode a)
    (translatedText a) (audioBuffer a) (errorMsg a) (history a)
    (stored_history a) (open_contexts a) (console a) v.

Definition log (lines : list LogLine) (a : AppState) : AppState :=
  mkApp (status a) (file a) (targetLang a) (processingMode a)
    (translatedText a) (audioBuffer a) (errorMsg a) (history a)
    (stored_history a) (open_contexts a) (console a ++ lines)
    (showHistory a).

(** [array.slice(0, n)] *)
Definition slice0 {A} (n : nat) (l : list A) : list A := firstn n l.

(** [saveHistory]; [captured] is the [history] of the render whose function
    is called.  The stored entry is the JSON text of the list, kept here as
    the list. *)
Definition saveHistory (captured : list HistoryItem) (newItem : HistoryItem)
    (a : AppState) : AppState :=
  let updated := slice0 20 (newItem :: captured) in
  set_stored_history (Some updated) (set_history updated a).

Definition deleteHistoryItem (item_id : string) (a : AppState) : AppState :=
  let updated :=
    filter (fun h => negb (String.eqb (id h) item_id)) (history a) in
  set_stored_history (Some updated) (set_history updated a).

(** [loadHistoryItem]: the entry is shown with a placeholder file and
    without audio, which is not stored. *)
Definition loadHistoryItem (item : HistoryItem) (a : AppState) : AppState :=
  set_showHistory false
    (set_status READY
       (set_audioBuffer None
          (set_file (Some (mkFile (fileName item) "application/pdf" ""))
             (set_targetLang (targetLanguage item)
                (set_translatedText (text item) a))))).

(** [Date.now().toString()] *)
Definition timestamp_id (now : Z) : string :=
  NilZero.string_of_int (Z.to_int now).

(** [generateAudioOnly].  [generateContent] is the remote model and
    [audioCtx] the context made by [new AudioContext({sampleRate: 24000})];
    [describe] gives the message of a platform exception. *)
Definition generateAudioOnly (generateContent : Request -> settled Response)
    (audioCtx : BaseAudioContext) (describe : exn -> string)
    (a : AppState) : AppState :=
  if negb (truthy (translatedText a)) then a
  else
    let a1 := set_status GENERATING_AUDIO a in
    let failed (error : string) (a : AppState) :=
      set_errorMsg "Failed to generate audio."
        (set_status READY (log [(""%string, error)] a)) in
    match generateSpeech generateContent (translatedText a) with
    | (Fulfilled audioBase64, lines) =>
        let a2 := set_open_contexts (S (open_contexts a1)) (log lines a1) in
        match decodeAudioData audioBase64 audioCtx defaultSampleRate with
        | Returns buffer =>
            let a3 := set_status READY (set_audioBuffer (Some buffer) a2) in
            set_open_contexts (pred (open_contexts a3)) a3
        | Throws e => failed (describe e) a2
        end
    | (RejectedWith error, lines) => failed error (log lines a1)
    end.

(** [handleProcess]; [now_id] and [now_ts] are the two readings of
    [Date.now()], for the id and for the timestamp of the entry.  Whatever
    the three steps throw is an [Error], so the message shown is its
    message. *)
Definition handleProcess (generateContent : Request -> settled Response)
    (audioCtx : BaseAudioContext) (describe : exn -> string)
    (now_id now_ts : Z) (a : AppState) : AppState :=
  match file a with
  | None => a
  | Some file =>
      let captured := history a in
      let failed (message : string) (a : AppState) :=
        set_errorMsg message
          (set_status ERROR (log [(""%string, message)] a)) in
      let a1 := set_status TRANSLATING (set_errorMsg "" a) in
      match translateDocument generateContent (f_data file) (f_type file)
              (targetLang a) (processingMode a) with
      | (Fulfilled text, lines) =>
          let a2 :=
            set_status GENERATING_AUDIO
              (set_translatedText text (log lines a1)) in
          match generateSpeech generateContent text with
          | (Fulfilled audioBase64, lines) =>
              let a3 :=
                set_open_contexts (S (open_contexts a2)) (log lines a2) in
              match decodeAudioData audioBase64 audioCtx defaultSampleRate
              with
              | Returns buffer =>
                  let a4 :=
                    set_status READY (set_audioBuffer (Some buffer) a3) in
                  let a5 :=
                    saveHistory captured
                      (mkItem (timestamp_id now_id) now_ts (f_name file)
                         (targetLang a) text) a4 in
                  set_open_contexts (pred (open_contexts a5)) a5
              | Throws e => failed (describe e) a3
              end
          | (RejectedWith error, lines) => failed error (log lines a2)
          end
      | (RejectedWith error, lines) => failed error (log lines a1)
      end
  end.

End App.

Example atob_ex :
  Decoder.atob "AAD/fwCA" = Some (String "000" (String "000" (String "255"
     (String "127" (String "000" (String "128" EmptyString)))))).
Proof. reflexivity. Qed.

(* ================================================================== *)
(** ** Properties of the decoder *)

Section DecoderFacts.
Import Decoder.

Lemma set_index_app_here {A} (a b : list A) v :
  set_index (a ++ b) (List.length a) v = a ++ set_index b 0 v.
Proof. induction a as [|x a IH]; simpl; [reflexivity | now rewrite IH]. Qed.

Lemma set_index_length {A} (l : list A) i v :
  List.length (set_index l i v) = List.length l.
Proof.
  revert i; induction l as [|x l IH]; intros [|i]; simpl; auto.
Qed.

Lemma skipn_cons_nth {A} (l : list A) k :
  (k < List.length l)%nat ->
  exists x, skipn k l = x :: skipn (S k) l.
Proof.
  revert k; induction l as [|y l IH]; intros k Hk; simpl in Hk; [lia|].
  destruct k as [|k]; [exists y; reflexivity|].
  destruct (IH k) as [x Hx]; [lia|]. exists x. exact Hx.
Qed.

Lemma fill_prefix {A} (f : nat -> A) (l : list A) k :
  (k <= List.length l)%nat ->
  for_loop k (fun i acc => set_index acc i (f i)) l
  = map f (seq 0 k) ++ skipn k l.
Proof.
  unfold for_loop. induction k as [|k IH]; intros Hk; [reflexivity|].
  rewrite seq_S, fold_left_app, IH by lia. simpl.
  destruct (@skipn_cons_nth A l k) as [x Hx]; [lia|].
  rewrite Hx, map_app. simpl.
  replace k with (List.length (map f (seq 0 k))) at 2
    by now rewrite length_map, length_seq.
  rewrite set_index_app_here. simpl. now rewrite <- app_assoc.
Qed.

Lemma fill_all {A} (f : nat -> A) (l : list A) :
  for_loop (List.length l) (fun i acc => set_index acc i (f i)) l
  = map f (seq 0 (List.length l)).
Proof.
  rewrite fill_prefix by lia. now rewrite skipn_all, app_nil_r.
Qed.

Lemma decode_bytes base64 bin :
  atob base64 = Some bin ->
  decode base64
  = Returns (map (fun i => (charCodeAt bin i mod 256)%Z)
                 (seq 0 (String.length bin))).
Proof.
  intros H. unfold decode. rewrite H. f_equal.
  set (f := fun i => (charCodeAt bin i mod 256)%Z).
  pose proof (@fill_all Z f (repeat 0%Z (String.length bin))) as E.
  rewrite repeat_length in E. exact E.
Qed.

Lemma lor_shift_add lo hi :
  (0 <= lo < 256)%Z -> (0 <= hi)%Z ->
  Z.lor lo (Z.shiftl hi 8) = (lo + 256 * hi)%Z.
Proof.
  intros Hlo Hhi. rewrite Z.shiftl_mul_pow2 by lia.
  assert (L : Z.land lo (hi * 2 ^ 8) = 0%Z).
  { apply Z.bits_inj'. intros n Hn. rewrite Z.land_spec, Z.bits_0.
    destruct (Z_lt_le_dec n 8) as [Hlt|Hge].
    - rewrite Z.mul_pow2_bits_low by lia. apply andb_false_r.
    - destruct (Z.eq_dec lo 0) as [->|Hnz]; [now rewrite Z.bits_0|].
      rewrite (Z.bits_above_log2 lo n); [reflexivity|lia|].
      assert (Z.log2 lo < 8)%Z by (apply Z.log2_lt_pow2; lia). lia. }
  rewrite <- Z.lxor_lor by exact L.
  rewrite <- Z.add_nocarry_lxor by exact L. change (2 ^ 8)%Z with 256%Z. lia.
Qed.

Lemma int16_view_length bytes n :
  List.length bytes = (2 * n)%nat -> List.length (int16_view bytes) = n.
Proof.
  revert bytes; induction n as [|n IH]; intros bytes H.
  - destruct bytes; [reflexivity|discriminate].
  - destruct bytes as [|lo [|hi rest]]; simpl in H; try lia.
    simpl. f_equal. apply IH. lia.
Qed.

Lemma int16_view_nth bytes n i :
  List.length bytes = (2 * n)%nat -> (i < n)%nat ->
  nth_error (int16_view bytes) i
  = Some (int16_of_le (nth (2 * i) bytes 0%Z) (nth (2 * i + 1) bytes 0%Z)).
Proof.
  revert bytes i; induction n as [|n IH]; intros bytes i H Hi; [lia|].
  destruct bytes as [|lo [|hi rest]]; simpl in H; try lia.
  destruct i as [|i]; [reflexivity|].
  replace (2 * S i)%nat with (S (S (2 * i))) by lia.
  replace (S (S (2 * i)) + 1)%nat with (S (S (2 * i + 1))) by lia.
  simpl. apply IH; lia.
Qed.

Lemma store_fold (g : nat -> num) nc len r (ix : list nat) ch :
  fold_left (fun b i => store_sample b 0 i (g i)) ix
    (mkAudioBuffer nc len r [ch])
  = mkAudioBuffer nc len r
      [fold_left (fun c i => set_index c i (g i)) ix ch].
Proof.
  revert ch; induction ix as [|i ix IH]; intros ch; [reflexivity|].
  simpl. unfold store_sample at 2. simpl. apply IH.
Qed.

Lemma createBuffer_mono ctx n rate :
  (1 <= n)%nat -> rate_supported ctx rate ->
  createBuffer ctx 1 n rate
  = Returns (mkAudioBuffer 1 n rate [repeat (Fin 0) n]).
Proof.
  intros Hn [[H1 H2] H3]. unfold createBuffer.
  replace (n =? 0)%nat with false by (symmetry; apply Nat.eqb_neq; lia).
  replace (rate <? minSampleRate ctx)%Z with false
    by (symmetry; apply Z.ltb_ge; lia).
  replace (maxSampleRate ctx <? rate)%Z with false
    by (symmetry; apply Z.ltb_ge; lia).
  replace (rate <=? 0)%Z with false by (symmetry; apply Z.leb_gt; lia).
  reflexivity.
Qed.

Lemma createBuffer_returns ctx nc n rate buf :
  createBuffer ctx nc n rate = Returns buf ->
  buf = mkAudioBuffer nc n rate (repeat (repeat (Fin 0) n) nc).
Proof.
  unfold createBuffer. destruct (_ || _); [discriminate|]. now intros [= <-].
Qed.

Lemma bytes_of_length bin : List.length (bytes_of bin) = String.length bin.
Proof. unfold bytes_of. now rewrite length_map, length_seq. Qed.

Lemma decodeAudioData_unfold base64Data bin ctx rate :
  atob base64Data = Some bin ->
  Nat.even (String.length bin) = true ->
  let data := int16_view (bytes_of bin) in
  let n := List.length data in
  decodeAudioData base64Data ctx rate
  = obind (createBuffer ctx 1 n rate) (fun _ =>
      Returns (mkAudioBuffer 1 n rate
                 [map (fun i => sample_at data (i * 1 + 0)) (seq 0 n)])).
Proof.
  intros Ha He data n. unfold decodeAudioData.
  rewrite (decode_bytes _ Ha). fold (bytes_of bin). cbn [obind].
  unfold Int16Array_of. rewrite bytes_of_length, He. cbn [obind].
  fold data. rewrite Nat.div_1_r. fold n.
  destruct (createBuffer ctx 1 n rate) as [buf|e] eqn:Hc; [|reflexivity].
  apply createBuffer_returns in Hc. subst buf. cbn [obind].
  f_equal. unfold for_loop at 1. cbn [seq fold_left repeat].
  unfold for_loop.
  rewrite (store_fold (fun i => sample_at data (i * 1 + 0))). f_equal. f_equal.
  pose proof (@fill_all num (fun i => sample_at data (i * 1 + 0))
                (repeat (Fin 0) n)) as E.
  rewrite repeat_length in E. exact E.
Qed.

Lemma charCodeAt_range bin i : (0 <= charCodeAt bin i < 256)%Z.
Proof.
  unfold charCodeAt. destruct (String.get i bin) as [c|]; [|lia].
  pose proof (N_ascii_bounded c). lia.
Qed.

Lemma bytes_of_nth bin i :
  (i < String.length bin)%nat -> nth i (bytes_of bin) 0%Z = charCodeAt bin i.
Proof.
  intros Hi. unfold bytes_of. apply nth_error_nth.
  rewrite nth_error_map, nth_error_seq.
  replace (i <? String.length bin)%nat with true
    by (symmetry; apply Nat.ltb_lt; exact Hi).
  cbn [option_map Nat.add]. f_equal.
  apply Z.mod_small, charCodeAt_range.
Qed.

Lemma int16_of_bytes bin n i :
  String.length bin = (2 * n)%nat -> (i < n)%nat ->
  nth_error (int16_view (bytes_of bin)) i = Some (pcm16_sample bin i).
Proof.
  intros Hl Hi.
  rewrite (@int16_view_nth (bytes_of bin) n i)
    by (rewrite ?bytes_of_length; assumption).
  rewrite !bytes_of_nth by lia.
  unfold int16_of_le, pcm16_sample.
  pose proof (charCodeAt_range bin (2 * i)).
  pose proof (charCodeAt_range bin (2 * i + 1)).
  rewrite lor_shift_add by lia. reflexivity.
Qed.

Lemma pcm16_sample_range bin i :
  (-32768 <= pcm16_sample bin i <= 32767)%Z.
Proof.
  unfold pcm16_sample.
  pose proof (charCodeAt_range bin (2 * i)).
  pose proof (charCodeAt_range bin (2 * i + 1)).
  destruct (Z.ltb_spec (charCodeAt bin (2 * i)
                        + 256 * charCodeAt bin (2 * i + 1)) 32768); lia.
Qed.

Lemma even_double n : Nat.even (2 * n) = true.
Proof. rewrite Nat.even_mul. reflexivity. Qed.

(** C9, as the code has it.  For an input whose base64 decoding has [2 * n]
    bytes with [n >= 1], and a sample rate the context supports,
    [decodeAudioData] returns a mono buffer of exactly [n] frames at that
    rate; sample [i] is the [i]-th little-endian signed 16-bit value
    divided by 32768, hence within [-1, 1]; and the result is a function of
    the arguments, so two calls give the same buffer. *)
Theorem decodeAudioData_pcm16 base64Data bin ctx rate n :
  atob base64Data = Some bin ->
  String.length bin = (2 * n)%nat ->
  (1 <= n)%nat ->
  rate_supported ctx rate ->
  exists ch,
    decodeAudioData base64Data ctx rate
      = Returns (mkAudioBuffer 1 n rate [ch])
    /\ List.length ch = n
    /\ (forall i, (i < n)%nat ->
          exists q, nth_error ch i = Some (Fin q)
                    /\ q == inject_Z (pcm16_sample bin i) / 32768
                    /\ -1 <= q <= 1)
    /\ (forall r, r = decodeAudioData base64Data ctx rate ->
          r = Returns (mkAudioBuffer 1 n rate [ch])).
Proof.
  intros Ha Hl Hn Hr.
  pose proof (@decodeAudioData_unfold base64Data bin ctx rate Ha) as E.
  rewrite Hl, even_double in E. specialize (E eq_refl). cbv zeta in E.
  assert (Hlen : List.length (int16_view (bytes_of bin)) = n)
    by (apply int16_view_length; now rewrite bytes_of_length).
  rewrite Hlen in E. rewrite (createBuffer_mono Hn Hr) in E. cbn [obind] in E.
  eexists. split; [exact E|]. split; [now rewrite length_map, length_seq|].
  split; [|intros r ->; exact E].
  intros i Hi.
  exists (Qred (inject_Z (pcm16_sample bin i) / 32768)).
  split.
  - rewrite nth_error_map, nth_error_seq.
    replace (i <? n)%nat with true by (symmetry; apply Nat.ltb_lt; exact Hi).
    cbn [option_map Nat.add]. unfold sample_at.
    rewrite Nat.mul_1_r, Nat.add_0_r, (int16_of_bytes _ Hl Hi). reflexivity.
  - split; [apply Qred_correct|].
    rewrite Qred_correct. pose proof (pcm16_sample_range bin i) as R.
    unfold Qle, Qdiv, Qmult, Qinv, inject_Z; simpl. lia.
Qed.

Lemma decodeAudioData_pcm16_witness :
  exists ch,
    decodeAudioData "AAD/fwCA" (mkContext 8000 96000) 24000
      = Returns (mkAudioBuffer 1 3 24000 [ch])
    /\ List.length ch = 3%nat.
Proof.
  destruct (@decodeAudioData_pcm16 "AAD/fwCA"
              (String "000" (String "000" (String "255" (String "127"
                (String "000" (String "128" EmptyString))))))
              (mkContext 8000 96000) 24000 3)
    as [ch [E [L _]]].
  - reflexivity.
  - reflexivity.
  - lia.
  - unfold rate_supported; simpl; lia.
  - exists ch. split; assumption.
Defined.

(** C9 fails on the code for [n = 0]: the empty input decodes to zero
    bytes, and [createBuffer] refuses a buffer of zero frames. *)
Lemma decodeAudioData_empty_input :
  atob "" = Some ""%string
  /\ String.length "" = (2 * 0)%nat
  /\ decodeAudioData "" (mkContext 8000 96000) defaultSampleRate
     = Throws NotSupportedError.
Proof. repeat split. Qed.

(** C10.  When the input decodes to an odd number of bytes,
    [decodeAudioData] fails with the RangeError of the [Int16Array]
    constructor; whenever it returns a buffer, the byte count is even and
    the buffer has half as many frames as there are bytes. *)
Theorem decodeAudioData_odd_fails base64Data bin ctx rate :
  atob base64Data = Some bin ->
  (Nat.odd (String.length bin) = true ->
     decodeAudioData base64Data ctx rate = Throws RangeError)
  /\ (forall buf, decodeAudioData base64Data ctx rate = Returns buf ->
        Nat.even (String.length bin) = true
        /\ buf_length buf = (String.length bin / 2)%nat
        /\ exists ch, channelData buf = [ch]
                      /\ List.length ch = (String.length bin / 2)%nat).
Proof.
  intros Ha. split.
  - intros Ho. unfold decodeAudioData.
    rewrite (decode_bytes _ Ha). fold (bytes_of bin). cbn [obind].
    unfold Int16Array_of. rewrite bytes_of_length.
    rewrite <- Nat.negb_odd, Ho. reflexivity.
  - intros buf Hb.
    destruct (Nat.even (String.length bin)) eqn:He.
    + pose proof (@decodeAudioData_unfold base64Data bin ctx rate Ha He) as E.
      cbv zeta in E. rewrite E in Hb.
      destruct (createBuffer _ _ _ _); [|discriminate].
      cbn [obind] in Hb. injection Hb as <-.
      cbn [buf_length channelData].
      apply Nat.even_spec in He. destruct He as [m Hm].
      assert (Hlen : List.length (int16_view (bytes_of bin)) = m)
        by (apply int16_view_length; now rewrite bytes_of_length).
      assert (Hdiv : (String.length bin / 2)%nat = m)
        by (rewrite Hm, Nat.mul_comm; apply Nat.div_mul; lia).
      rewrite Hlen, Hdiv.
      repeat split. eexists. split; [reflexivity|].
      now rewrite length_map, length_seq.
    + exfalso. unfold decodeAudioData in Hb.
      rewrite (decode_bytes _ Ha) in Hb. fold (bytes_of bin) in Hb.
      cbn [obind] in Hb. unfold Int16Array_of in Hb.
      rewrite bytes_of_length, He in Hb. discriminate.
Qed.

Lemma decodeAudioData_odd_fails_witness :
  decodeAudioData "AA==" (mkContext 8000 96000) 24000 = Throws RangeError.
Proof.
  refine (proj1 (@decodeAudioData_odd_fails "AA=="
                   (String "000" EmptyString) (mkContext 8000 96000) 24000
                   _) _); reflexivity.
Defined.

End DecoderFacts.

(* ================================================================== *)
(** ** Properties of the player *)

Section PlayerFacts.
Import Decoder Player.

Lemma nth_error_last {A} (l : list A) x :
  nth_error (l ++ [x]) (List.length l) = Some x.
Proof. rewrite nth_error_app2, Nat.sub_diag by lia. reflexivity. Qed.

Lemma set_index_last {A} (l : list A) x y :
  set_index (l ++ [x]) (List.length l) y = l ++ [y].
Proof. now rewrite set_index_app_here. Qed.

Lemma state_eta s :
  mkState (audioBuffer s) (isPlaying s) (playbackSpeed s) (progress s)
    (audioContextRef s) (sourceNodeRef s) (startTimeRef s) (pauseTimeRef s)
    (animationFrameRef s) (ctxState s) (currentTime s) (nodes s)
    (frameRequests s) (nextFrameId s) (resuming s) = s.
Proof. destruct s; reflexivity. Qed.

Lemma run_all_rejected reason (l : list Closure) s :
  run_all (fun k => playAudio_settle k (Rejected reason)) l s = s.
Proof. induction l as [|k l IH]; [reflexivity|]. simpl. exact IH. Qed.

(** C8.  When the context is suspended, [playAudio] waits for [resume()]
    without having touched the state; if the promise is rejected, the call
    fails with the reason of the rejection and changes nothing.  Through
    the event loop: after a click on play in a state that is not playing
    and the rejection, no node has been created, [sourceNodeRef] is as
    before and [isPlaying] is false. *)
Theorem play_fails_when_resume_fails s buf reason :
  audioBuffer s = Some buf ->
  audioContextRef s = true ->
  ctxState s = suspended ->
  isPlaying s = false ->
  playAudio s = Awaiting (capture s) s
  /\ (forall s', playAudio_settle (capture s) (Rejected reason) s'
                 = (Throws reason, s'))
  /\ (let s2 := step (ResumeSettled (Rejected reason))
                     (step ClickPlayPause s) in
      s2 = with_resuming [] s
      /\ isPlaying s2 = false
      /\ nodes s2 = nodes s
      /\ sourceNodeRef s2 = sourceNodeRef s).
Proof.
  intros Hb Hc Hs Hp.
  assert (E : playAudio s = Awaiting (capture s) s)
    by (unfold playAudio; now rewrite Hb, Hc, Hs).
  split; [exact E|]. split; [reflexivity|].
  assert (E2 : step ClickPlayPause s
               = with_resuming (resuming s ++ [capture s]) s)
    by (unfold step, togglePlay; now rewrite Hp, E).
  cbv zeta. rewrite E2. unfold step. rewrite run_all_rejected.
  cbn. auto.
Qed.

Lemma nth_error_set_index {A} (l : list A) i x y :
  nth_error l i = Some x -> nth_error (set_index l i y) i = Some y.
Proof.
  revert i; induction l as [|h l IH]; intros [|i] H; simpl in *;
    try discriminate; auto.
Qed.

Lemma handleSpeedChange_effect v s :
  audioContextRef s = true ->
  let r := fst (handleSpeedChange v s) in
  let s' := snd (handleSpeedChange v s) in
  (playbackSpeed s' = v
   /\ progress s' = progress s
   /\ pauseTimeRef s' = pauseTimeRef s
   /\ startTimeRef s' = startTimeRef s
   /\ currentTime s' = currentTime s
   /\ isPlaying s' = isPlaying s)
  /\ (r = Returns tt \/ r = Throws TypeError)
  /\ (isFinite v = true ->
      r = Returns tt
      /\ forall id n,
           isPlaying s = true ->
           sourceNodeRef s = Some id -> nth_error (nodes s) id = Some n ->
           exists n', nth_error (nodes s') id = Some n'
                      /\ playbackRate n' = v /\ live n' = live n).
Proof.
  intros Hc. cbv zeta. unfold handleSpeedChange, bind, get, modify.
  rewrite Hc.
  destruct (isPlaying s) eqn:Hp; cbn;
    [|split; [|split; [|intros _; split]]; auto; try tauto;
      intros; discriminate].
  destruct (sourceNodeRef s) as [id|] eqn:Hr; cbn;
    [|split; [|split; [|intros _; split]]; auto; try tauto;
      intros; discriminate].
  unfold set_playbackRate. destruct (isFinite v) eqn:Hf; cbn;
    [|split; [|split]; auto; try tauto; intros; discriminate].
  destruct (nth_error (nodes s) id) as [n|] eqn:Hn; cbn;
    (split; [tauto|]; split; [auto|]; intros _; split; [reflexivity|]);
    intros id' n' _ [= <-] Hn'; rewrite Hn in Hn'; [|discriminate].
  injection Hn' as <-.
  eexists. split; [eapply nth_error_set_index; exact Hn|].
  split; reflexivity.
Qed.

(** C7, as the code has it.  [handleSpeedChange] validates nothing: for
    every multiplier, supported or not, the stored speed becomes that
    multiplier; it raises no InvalidSpeed (the only exception is the
    TypeError of the rate setter, for a value that is not finite, after the
    speed was stored); and while playing, a finite multiplier becomes the
    rate of the node held by [sourceNodeRef]. *)
Theorem speed_change_is_unchecked v s :
  audioContextRef s = true ->
  let r := fst (handleSpeedChange v s) in
  let s' := snd (handleSpeedChange v s) in
  playbackSpeed s' = v
  /\ (r = Returns tt \/ r = Throws TypeError)
  /\ (isFinite v = true ->
      r = Returns tt
      /\ forall id n,
           isPlaying s = true ->
           sourceNodeRef s = Some id -> nth_error (nodes s) id = Some n ->
           exists n', nth_error (nodes s') id = Some n'
                      /\ playbackRate n' = v).
Proof.
  intros Hc. cbv zeta.
  destruct (@handleSpeedChange_effect v s Hc) as [[H1 _] [H2 H3]].
  split; [exact H1|]. split; [exact H2|].
  intros Hf. destruct (H3 Hf) as [R N]. split; [exact R|].
  intros id n Hp Hr Hn. destruct (N id n Hp Hr Hn) as [n' [A [B _]]].
  exists n'. auto.
Qed.

(** C2, as the code has it.  While playing, [handleSpeedChange] stores the
    new speed and makes it the rate of the live node at once; it publishes
    no progress: [progress] and the retained offset stay as they are, and the
    player stays in the Playing state. *)
Theorem speed_change_publishes_no_progress v s id n :
  audioContextRef s = true ->
  isPlaying s = true ->
  sourceNodeRef s = Some id ->
  nth_error (nodes s) id = Some n ->
  isFinite v = true ->
  let s' := after (handleSpeedChange v) s in
  handleSpeedChange v s = (Returns tt, s')
  /\ playbackSpeed s' = v
  /\ (exists n', nth_error (nodes s') id = Some n'
                 /\ playbackRate n' = v /\ live n' = live n)
  /\ progress s' = progress s
  /\ pauseTimeRef s' = pauseTimeRef s
  /\ isPlaying s' = true.
Proof.
  intros Hc Hp Hr Hn Hf. cbv zeta. unfold after.
  destruct (@handleSpeedChange_effect v s Hc)
    as [[H1 [H2 [H3 [_ [_ H6]]]]] [_ H8]].
  destruct (H8 Hf) as [R N].
  split; [rewrite <- R; apply surjective_pairing|].
  split; [exact H1|]. split; [exact (N id n Hp Hr Hn)|].
  split; [exact H2|]. split; [exact H3|]. now rewrite H6.
Qed.

(** *** Arithmetic of the number model *)

Lemma Qred_eq q r : q == r -> Qred r = r -> Qred q = r.
Proof. intros H Hr. rewrite <- Hr. apply Qred_complete, H. Qed.

Lemma Qtrunc_small q : 0 <= q -> q < 1 -> Qtrunc q = 0%Z.
Proof.
  destruct q as [a b]. unfold Qle, Qlt, Qtrunc. simpl. intros H0 H1.
  apply Z.quot_small. lia.
Qed.

Lemma nrem_small a d :
  0 <= a -> a < d -> Qred a = a -> nrem (Fin a) (Fin d) = Fin a.
Proof.
  intros H0 H1 Hr. unfold nrem.
  assert (Hd : 0 < d) by (eapply Qle_lt_trans; eassumption).
  destruct (Qeq_bool d 0) eqn:E.
  - apply Qeq_bool_iff in E. rewrite E in Hd. now apply Qlt_irrefl in Hd.
  - f_equal. apply Qred_eq; [|exact Hr].
    rewrite Qtrunc_small.
    + change (inject_Z 0) with 0. ring.
    + apply Qle_shift_div_l; [exact Hd|]. now rewrite Qmult_0_l.
    + apply Qlt_shift_div_r; [exact Hd|]. now rewrite Qmult_1_l.
Qed.

Lemma nge_fin a b : nge (Fin a) (Fin b) = true <-> b <= a.
Proof. apply Qle_bool_iff. Qed.

Lemma nge_fin_false a b : a < b -> nge (Fin a) (Fin b) = false.
Proof.
  intros H. destruct (nge (Fin a) (Fin b)) eqn:E; [|reflexivity].
  apply nge_fin in E. exfalso. eapply Qlt_irrefl, Qlt_le_trans; eassumption.
Qed.

(** *** End of a node: natural completion against a pause *)

Lemma onended_guard k buf s e d :
  c_audioBuffer k = Some buf ->
  audioContextRef s = true ->
  elapsed_at (c_playbackSpeed k) s = Fin e ->
  duration buf = Fin d ->
  let s' := after (onended_handler k) s in
  (d - (1 # 10) <= e ->
     s' = with_progress (Fin 0)
            (with_pauseTimeRef (Fin 0) (with_isPlaying false s)))
  /\ (e < d - (1 # 10) -> s' = s).
Proof.
  intros Hk Hc He Hd. cbv zeta.
  unfold after, onended_handler, bind, get. rewrite Hk, Hc, He, Hd.
  cbn [andb nsub]. split; intros H.
  - rewrite (proj2 (nge_fin e (Qred (d - (1 # 10))))); [reflexivity|].
    now rewrite Qred_correct.
  - rewrite nge_fin_false; [reflexivity|]. now rewrite Qred_correct.
Qed.

(** *** Closed forms of [playAudio] *)

Local Arguments nrem : simpl never.
Local Arguments nsub : simpl never.
Local Arguments nmul : simpl never.
Local Arguments ndiv : simpl never.
Local Arguments nge : simpl never.
Local Arguments duration : simpl never.
Local Arguments Qred : simpl never.

Ltac eval_nodes :=
  repeat (cbn; rewrite ?nth_error_last, ?set_index_last).

Ltac unfold_platform :=
  unfold bind, createBufferSource, set_buffer, set_playbackRate,
    set_connected, set_onended, start, stop, update_node, modify, get, ret,
    throw.

Lemma nneg_nonneg a : 0 <= a -> nneg (Fin a) = false.
Proof.
  destruct a as [n dd]. unfold Qle, nneg, Qsgn. simpl. intros H.
  apply Z.ltb_ge. destruct n; simpl; lia.
Qed.

Lemma playAudio_resumed_ok k buf s offset :
  c_audioBuffer k = Some buf ->
  isFinite (c_playbackSpeed k) = true ->
  nrem (pauseTimeRef s) (duration buf) = offset ->
  isFinite offset = true ->
  nneg offset = false ->
  playAudio_resumed k s = updateProgress k (playing_state k buf offset s).
Proof.
  intros Hk Hf Ho Hfin Hpos. unfold playAudio_resumed. rewrite Hk.
  unfold_platform. rewrite Hf. eval_nodes. rewrite Ho, Hfin, Hpos.
  eval_nodes. unfold updateProgress, bind, get. rewrite Hk. reflexivity.
Qed.

Lemma playAudio_resumed_throws k buf s :
  c_audioBuffer k = Some buf ->
  isFinite (c_playbackSpeed k)
    && isFinite (nrem (pauseTimeRef s) (duration buf))
    && negb (nneg (nrem (pauseTimeRef s) (duration buf))) = false ->
  exists e,
    playAudio_resumed k s
    = (Throws e, with_nodes (nodes s ++ [unstarted_node k buf]) s)
    /\ (e = TypeError \/ e = RangeError)
    /\ (isFinite (nrem (pauseTimeRef s) (duration buf)) = false ->
        e = TypeError).
Proof.
  intros Hk H. unfold playAudio_resumed, unstarted_node. rewrite Hk.
  unfold_platform.
  destruct (isFinite (c_playbackSpeed k)) eqn:Hf; eval_nodes;
    [|exists TypeError; auto].
  destruct (isFinite (nrem (pauseTimeRef s) (duration buf))) eqn:Hfin;
    eval_nodes; [|exists TypeError; auto].
  cbn in H. apply negb_false_iff in H. rewrite H. eval_nodes.
  exists RangeError. repeat split; auto. discriminate.
Qed.

Lemma playAudio_resumed_cases k buf s :
  c_audioBuffer k = Some buf ->
  (exists e,
      playAudio_resumed k s
      = (Throws e, with_nodes (nodes s ++ [unstarted_node k buf]) s))
  \/ (exists offset,
        playAudio_resumed k s
        = updateProgress k (playing_state k buf offset s)).
Proof.
  intros Hk.
  destruct (isFinite (c_playbackSpeed k)
            && isFinite (nrem (pauseTimeRef s) (duration buf))
            && negb (nneg (nrem (pauseTimeRef s) (duration buf)))) eqn:E.
  - right. apply andb_prop in E. destruct E as [E E3].
    apply andb_prop in E. destruct E as [E1 E2].
    apply negb_true_iff in E3. eexists.
    eapply playAudio_resumed_ok; eauto.
  - left. destruct (playAudio_resumed_throws _ _ Hk E) as [e [He _]].
    exists e. exact He.
Qed.

Lemma click_play s buf offset :
  isPlaying s = false ->
  audioBuffer s = Some buf ->
  audioContextRef s = true ->
  ctxState s = running ->
  isFinite (playbackSpeed s) = true ->
  nrem (pauseTimeRef s) (duration buf) = Fin offset ->
  0 <= offset ->
  step ClickPlayPause s = playing_state (capture s) buf (Fin offset) s.
Proof.
  intros Hp Hb Hc Hr Hf Ho Hpos.
  unfold step, togglePlay, playAudio. rewrite Hp, Hb, Hc, Hr. cbn [negb].
  rewrite (@playAudio_resumed_ok (capture s) buf s (Fin offset)
             Hb Hf Ho eq_refl (nneg_nonneg Hpos)).
  unfold updateProgress, bind, get, capture. cbn. rewrite Hb, Hp, Hc.
  reflexivity.
Qed.

Lemma set_index_twice {A} (l : list A) i x y :
  set_index (set_index l i x) i y = set_index l i y.
Proof.
  revert i; induction l as [|h l IH]; intros [|i]; simpl; auto.
  now rewrite IH.
Qed.


Lemma elapsed_fin ct st v e :
  (ct - st) * v == e -> Qred e = e ->
  nmul (nsub (Fin ct) (Fin st)) (Fin v) = Fin e.
Proof.
  intros H Hr. unfold nmul, nsub. f_equal. apply Qred_eq; [|exact Hr].
  now rewrite Qred_correct.
Qed.

Lemma first_play_after_resume buf t0 :
  step (ResumeSettled Resolved)
       (step ClickPlayPause (mounted buf suspended t0))
  = step ClickPlayPause (mounted buf running t0).
Proof.
  unfold step, togglePlay, playAudio, run_all, after.
  cbn -[playAudio_resumed].
  change (with_ctxState running
            (with_resuming []
               (with_resuming [capture (mounted buf suspended t0)]
                  (mounted buf suspended t0))))
    with (mounted buf running t0).
  change (capture (mounted buf suspended t0))
    with (capture (mounted buf running t0)).
  destruct (playAudio_resumed (capture (mounted buf running t0))
              (mounted buf running t0)).
  reflexivity.
Qed.

Lemma Qred_idem q : Qred (Qred q) = Qred q.
Proof. apply Qred_complete, Qred_correct. Qed.

Lemma first_play buf d t0 :
  duration buf = Fin d -> 0 < d ->
  step ClickPlayPause (mounted buf running t0)
  = playing_state (capture (mounted buf running t0)) buf (Fin 0)
      (mounted buf running t0).
Proof.
  intros Hd Hd0. apply click_play; try reflexivity; [|apply Qle_refl].
  rewrite Hd. apply nrem_small; [apply Qle_refl | exact Hd0 | reflexivity].
Qed.

(** *** Properties kept by every handler *)

Lemma preserves_bind {A B} P (m : M A) (k : A -> M B) :
  preserves P m -> (forall a, preserves P (k a)) -> preserves P (bind m k).
Proof.
  intros Hm Hk s Hs. unfold bind. specialize (Hm s Hs).
  destruct (m s) as [[a|e] s1]; cbn in *; [apply Hk; exact Hm | exact Hm].
Qed.

Lemma preserves_ret {A} P (a : A) : preserves P (ret a).
Proof. intros s Hs. exact Hs. Qed.

Lemma preserves_throw {A} P e : preserves P (@throw A e).
Proof. intros s Hs. exact Hs. Qed.

Lemma preserves_get P : preserves P get.
Proof. intros s Hs. exact Hs. Qed.

Lemma preserves_modify P f :
  (forall s, P s -> P (f s)) -> preserves P (modify f).
Proof. intros Hf s Hs. apply Hf, Hs. Qed.

Lemma preserves_try P m : preserves P m -> preserves P (try_catch m).
Proof. intros Hm s Hs. apply Hm, Hs. Qed.

Lemma preserves_run_all {A} P (f : A -> M unit) l :
  (forall a, preserves P (f a)) -> forall s, P s -> P (run_all f l s).
Proof.
  intros Hf. induction l as [|a l IH]; intros s Hs; [exact Hs|].
  simpl. apply IH. apply Hf, Hs.
Qed.

Ltac pres_step :=
  match goal with
  | |- preserves _ (bind _ _) => apply preserves_bind; [|intros ?]
  | |- preserves _ (ret _) => apply preserves_ret
  | |- preserves _ (throw _) => apply preserves_throw
  | |- preserves _ get => apply preserves_get
  | |- preserves _ (try_catch _) => apply preserves_try
  | |- preserves _ (modify _) =>
      apply preserves_modify;
      let s := fresh "s" in let H := fresh "H" in
      intros s H; first [exact H | reflexivity]
  | |- preserves _ (match ?x with _ => _ end) => destruct x
  end.

Ltac pres := repeat pres_step.

Lemma progress_update_node id f : preserves progress_zero (update_node id f).
Proof.
  unfold update_node. apply preserves_modify. intros s H.
  destruct (nth_error (nodes s) id); exact H.
Qed.

Lemma progress_stop id : preserves progress_zero (stop id).
Proof. unfold stop. pres; apply progress_update_node. Qed.

Lemma progress_start id o : preserves progress_zero (start id o).
Proof. unfold start. pres; apply progress_update_node. Qed.

Lemma progress_set_playbackRate id v :
  preserves progress_zero (set_playbackRate id v).
Proof. unfold set_playbackRate. pres; apply progress_update_node. Qed.

Lemma progress_updateProgress k : preserves progress_zero (updateProgress k).
Proof.
  unfold updateProgress. pres. unfold requestAnimationFrame.
  intros s H. exact H.
Qed.

Lemma progress_stopAudio : preserves progress_zero stopAudio.
Proof.
  unfold stopAudio, set_connected, cancelAnimationFrame. pres;
    first [apply progress_stop | apply progress_update_node].
Qed.

Lemma progress_pauseAudio : preserves progress_zero pauseAudio.
Proof.
  unfold pauseAudio, set_connected, cancelAnimationFrame. pres;
    first [apply progress_stop | apply progress_update_node].
Qed.

Lemma progress_resetAudio : preserves progress_zero resetAudio.
Proof. unfold resetAudio. pres. apply progress_stopAudio. Qed.

Lemma progress_handleSpeedChange v :
  preserves progress_zero (handleSpeedChange v).
Proof. unfold handleSpeedChange. pres. apply progress_set_playbackRate. Qed.

Lemma progress_onended k : preserves progress_zero (onended_handler k).
Proof. unfold onended_handler. pres. Qed.

Lemma progress_playAudio_resumed k :
  preserves progress_zero (playAudio_resumed k).
Proof.
  unfold playAudio_resumed, set_buffer, set_connected, set_onended.
  pres;
    first [ apply progress_start | apply progress_set_playbackRate
          | apply progress_update_node | apply progress_updateProgress
          | (intros s H; exact H) ].
Qed.

Lemma progress_playAudio_settle k o :
  preserves progress_zero (playAudio_settle k o).
Proof.
  destruct o; [apply progress_playAudio_resumed | apply preserves_throw].
Qed.

Lemma progress_step e s : progress_zero s -> progress_zero (step e s).
Proof.
  intros H. destruct e; unfold step.
  - unfold togglePlay, playAudio.
    destruct (isPlaying s).
    + pose proof (progress_pauseAudio H) as G.
      destruct (pauseAudio s); exact G.
    + destruct (audioBuffer s); [|exact H].
      destruct (negb (audioContextRef s)); [exact H|].
      pose proof (@progress_playAudio_resumed (capture s) s H) as G.
      destruct (ctxState s); [exact H| |];
        destruct (playAudio_resumed (capture s) s); exact G.
  - apply progress_resetAudio, H.
  - apply progress_handleSpeedChange, H.
  - destruct (ctxState s); exact H.
  - apply preserves_run_all; [intros k; apply progress_playAudio_settle|].
    destruct o; exact H.
  - destruct (nth_error (nodes s) id) as [n|]; [|exact H].
    pose proof (@progress_update_node id
                  (fun n => mkNode (buffer n) (playbackRate n) (connected n)
                              (started n) (stopped n) true (onended n))
                  s H) as G.
    destruct (onended n); [apply progress_onended|]; exact G.
  - apply preserves_run_all; [intros r; apply progress_updateProgress|].
    exact H.
Qed.

(** C3, as the code has it.  [updateProgress] computes the elapsed time
    and drops it; [progress] is written only by the resets to 0.  So in
    every state the mounted component can reach, playing or not, the
    progress is 0. *)
Theorem progress_is_never_recomputed buf cs t0 s :
  reachable (mounted buf cs t0) s -> progress s = Fin 0.
Proof.
  induction 1 as [|s e _ IH _]; [reflexivity|].
  apply progress_step, IH.
Qed.

(** *** At most one live node *)

Lemma nth_error_set_index_inv {A} (l : list A) i x j y :
  nth_error (set_index l i x) j = Some y ->
  (j = i /\ y = x) \/ (j <> i /\ nth_error l j = Some y).
Proof.
  revert i j; induction l as [|h l IH]; intros i j H.
  - destruct i, j; discriminate.
  - destruct i as [|i], j as [|j]; simpl in H.
    + injection H as <-. left. auto.
    + right. split; [discriminate|exact H].
    + right. split; [discriminate|exact H].
    + destruct (IH i j H) as [[-> ->]|[Hne Hj]]; [left; auto|right].
      split; [congruence|exact Hj].
Qed.

Lemma no_live_filter l : no_live l -> filter live l = [].
Proof.
  induction l as [|x l IH]; intros H; [reflexivity|].
  simpl. rewrite (H 0%nat x eq_refl). apply IH.
  intros j m Hj. exact (H (S j) m Hj).
Qed.

Lemma single_index_count l :
  (forall i j ni nj, nth_error l i = Some ni -> nth_error l j = Some nj ->
     live ni = true -> live nj = true -> i = j) ->
  (List.length (filter live l) <= 1)%nat.
Proof.
  induction l as [|x l IH]; intros H; [simpl; lia|].
  simpl. destruct (live x) eqn:Hx.
  - rewrite no_live_filter; [simpl; lia|].
    intros j m Hj. destruct (live m) eqn:Hm; [|reflexivity].
    specialize (H 0%nat (S j) x m eq_refl Hj Hx Hm). discriminate.
  - apply IH. intros i j ni nj Hi Hj Li Lj.
    specialize (H (S i) (S j) ni nj Hi Hj Li Lj). congruence.
Qed.

Lemma single_node_count s :
  single_node s ->
  (live_count s <= 1)%nat /\ (isPlaying s = false -> live_count s = 0%nat).
Proof.
  intros [Ha _]. unfold live_count. split.
  - apply single_index_count. intros i j ni nj Hi Hj Li Lj.
    destruct (Ha i ni Hi Li) as [Ri _]. destruct (Ha j nj Hj Lj) as [Rj _].
    congruence.
  - intros Hp. rewrite no_live_filter; [reflexivity|].
    intros j m Hj. destruct (live m) eqn:Hm; [|reflexivity].
    destruct (Ha j m Hj Hm) as [_ Hq]. congruence.
Qed.

Lemma no_live_after_update s id n' :
  single_node s -> sourceNodeRef s = Some id -> live n' = false ->
  no_live (set_index (nodes s) id n').
Proof.
  intros [Ha _] Hr Hn j m Hj.
  destruct (@nth_error_set_index_inv _ _ _ _ j m Hj) as [[-> ->]|[Hne Hj']];
    [exact Hn|].
  destruct (live m) eqn:Hm; [|reflexivity].
  destruct (Ha j m Hj' Hm) as [Hr' _]. congruence.
Qed.

Lemma no_live_single s :
  no_live (nodes s) ->
  (resuming s = [] \/ exists k, resuming s = [k] /\ isPlaying s = false) ->
  single_node s.
Proof.
  intros Hn Hb. split; [|exact Hb].
  intros id n Hid Hl. rewrite (Hn id n Hid) in Hl. discriminate.
Qed.

Lemma single_node_stopped s s' :
  no_live (nodes s') -> resuming s' = resuming s -> isPlaying s' = false ->
  single_node s -> single_node s'.
Proof.
  intros Hn Hr Hp [_ Hb]. apply no_live_single; [exact Hn|].
  rewrite Hr. destruct Hb as [E|[k [E _]]]; [left|right; exists k]; auto.
Qed.

Lemma no_live_dangling s id :
  single_node s -> sourceNodeRef s = Some id ->
  nth_error (nodes s) id = None -> no_live (nodes s).
Proof.
  intros [Ha _] Hr Hn j m Hj. destruct (live m) eqn:Hm; [|reflexivity].
  destruct (Ha j m Hj Hm) as [Hr' _]. congruence.
Qed.

Lemma no_live_without_ref s :
  single_node s -> sourceNodeRef s = None -> no_live (nodes s).
Proof.
  intros [Ha _] Hr j m Hj. destruct (live m) eqn:Hm; [|reflexivity].
  destruct (Ha j m Hj Hm) as [Hr' _]. congruence.
Qed.

Lemma no_live_not_playing s :
  single_node s -> isPlaying s = false -> no_live (nodes s).
Proof.
  intros [Ha _] Hp j m Hj. destruct (live m) eqn:Hm; [|reflexivity].
  destruct (Ha j m Hj Hm) as [_ Hq]. congruence.
Qed.

Lemma pauseAudio_single s :
  single_node s -> single_node (snd (pauseAudio s)).
Proof.
  intros I. unfold pauseAudio. unfold_platform.
  unfold cancelAnimationFrame, modify.
  destruct (sourceNodeRef s) as [id|] eqn:Hr; [|exact I].
  destruct (audioContextRef s); cbn [negb]; [|exact I].
  destruct (nth_error (nodes s) id) as [n|] eqn:Hn.
  - destruct (started n) as [o|] eqn:Hs.
    + repeat (cbn; rewrite ?Hn, ?Hs,
                ?(@nth_error_set_index _ (nodes s) id n _ Hn)).
      rewrite set_index_twice.
      destruct (animationFrameRef s =? 0)%nat; cbn;
        (apply (@single_node_stopped s); [|reflexivity|reflexivity|exact I]);
        cbn; apply (@no_live_after_update s id _ I Hr); reflexivity.
    + repeat (cbn; rewrite ?Hn, ?Hs). exact I.
  - repeat (cbn; rewrite ?Hn).
    destruct (animationFrameRef s =? 0)%nat; cbn;
      (apply (@single_node_stopped s); [|reflexivity|reflexivity|exact I]);
      cbn; apply (@no_live_dangling s id I Hr Hn).
Qed.

Lemma stopAudio_single s :
  single_node s -> single_node (snd (stopAudio s)).
Proof.
  intros I. unfold stopAudio. unfold_platform.
  unfold try_catch, cancelAnimationFrame, modify.
  destruct (sourceNodeRef s) as [id|] eqn:Hr.
  - destruct (nth_error (nodes s) id) as [n|] eqn:Hn.
    + destruct (started n) as [o|] eqn:Hs.
      * repeat (cbn; rewrite ?Hn, ?Hs,
                  ?(@nth_error_set_index _ (nodes s) id n _ Hn)).
        rewrite set_index_twice.
        destruct (animationFrameRef s =? 0)%nat; cbn;
          (apply (@single_node_stopped s); [|reflexivity|reflexivity|exact I]);
          cbn; apply (@no_live_after_update s id _ I Hr); reflexivity.
      * repeat (cbn; rewrite ?Hn, ?Hs).
        destruct (animationFrameRef s =? 0)%nat; cbn;
          (apply (@single_node_stopped s); [|reflexivity|reflexivity|exact I]);
          cbn; intros j m Hj; destruct (live m) eqn:Hm; try reflexivity;
          destruct I as [Ha _]; destruct (Ha j m Hj Hm) as [Hr' _];
          assert (j = id) by congruence; subst j;
          rewrite Hn in Hj; injection Hj as <-;
          unfold live in Hm; rewrite Hs in Hm; discriminate.
    + repeat (cbn; rewrite ?Hn).
      destruct (animationFrameRef s =? 0)%nat; cbn;
        (apply (@single_node_stopped s); [|reflexivity|reflexivity|exact I]);
        cbn; apply (@no_live_dangling s id I Hr Hn).
  - cbn.
    destruct (animationFrameRef s =? 0)%nat; cbn;
      (apply (@single_node_stopped s); [|reflexivity|reflexivity|exact I]);
      cbn; apply (@no_live_without_ref s I Hr).
Qed.

Lemma single_update_node id f :
  (forall n, live (f n) = live n) ->
  preserves single_node (update_node id f).
Proof.
  intros Hf s [Ha Hb]. unfold update_node, modify. cbn.
  destruct (nth_error (nodes s) id) as [n|] eqn:Hn; [|split; assumption].
  split; [|exact Hb]. cbn. intros j m Hj Hm.
  destruct (@nth_error_set_index_inv _ _ _ _ j m Hj) as [[-> ->]|[Hne Hj']].
  - rewrite Hf in Hm. exact (Ha id n Hn Hm).
  - exact (Ha j m Hj' Hm).
Qed.

Lemma single_handleSpeedChange v :
  preserves single_node (handleSpeedChange v).
Proof.
  unfold handleSpeedChange, set_playbackRate. pres.
  apply single_update_node. reflexivity.
Qed.

Lemma single_updateProgress k : preserves single_node (updateProgress k).
Proof.
  unfold updateProgress. pres. unfold requestAnimationFrame.
  intros s H. exact H.
Qed.

Lemma single_resetAudio : preserves single_node resetAudio.
Proof.
  unfold resetAudio. pres. intros s H. apply stopAudio_single, H.
Qed.

Lemma nth_error_snoc_inv {A} (l : list A) x j y :
  nth_error (l ++ [x]) j = Some y ->
  nth_error l j = Some y \/ (j = List.length l /\ y = x).
Proof.
  intros H. destruct (Nat.lt_ge_cases j (List.length l)) as [Hlt|Hge].
  - left. now rewrite nth_error_app1 in H.
  - right. rewrite nth_error_app2 in H by exact Hge.
    destruct (j - List.length l)%nat as [|r] eqn:E.
    + simpl in H. injection H as <-. split; [lia|reflexivity].
    + simpl in H. destruct r; discriminate.
Qed.

Lemma no_live_snoc l x : no_live l -> live x = false -> no_live (l ++ [x]).
Proof.
  intros Hl Hx j m Hj.
  destruct (@nth_error_snoc_inv _ l x j m Hj) as [Hj'|[_ ->]];
    [exact (Hl j m Hj')|exact Hx].
Qed.

Lemma unstarted_node_not_live k buf : live (unstarted_node k buf) = false.
Proof. unfold unstarted_node. destruct (isFinite _); reflexivity. Qed.

Lemma playing_state_single k buf offset s :
  no_live (nodes s) -> resuming s = [] ->
  single_node (playing_state k buf offset s).
Proof.
  intros Hn Hr. split; [|left; exact Hr].
  cbn. intros id n Hid Hl.
  destruct (@nth_error_snoc_inv _ _ _ id n Hid) as [Hid'|[-> _]].
  - rewrite (Hn id n Hid') in Hl. discriminate.
  - auto.
Qed.

Lemma playAudio_resumed_single k s :
  no_live (nodes s) -> resuming s = [] ->
  single_node (snd (playAudio_resumed k s)).
Proof.
  intros Hn Hr. destruct (c_audioBuffer k) as [buf|] eqn:Hk.
  - destruct (@playAudio_resumed_cases k buf s Hk) as [[e E]|[offset E]];
      rewrite E.
    + cbn. apply no_live_single; [|left; exact Hr].
      cbn. apply no_live_snoc; [exact Hn|apply unstarted_node_not_live].
    + apply single_updateProgress, playing_state_single; assumption.
  - unfold playAudio_resumed. rewrite Hk. cbn.
    apply no_live_single; [exact Hn|left; exact Hr].
Qed.

Lemma click_single s :
  single_node s -> resuming s = [] -> single_node (step ClickPlayPause s).
Proof.
  intros I Hr. unfold step, togglePlay.
  destruct (isPlaying s) eqn:Hp.
  - pose proof (@pauseAudio_single s I) as G.
    destruct (pauseAudio s) as [r s']. exact G.
  - unfold playAudio.
    pose proof (@no_live_not_playing s I Hp) as Hn.
    destruct (audioBuffer s); [|exact I].
    destruct (negb (audioContextRef s)); [exact I|].
    pose proof (@playAudio_resumed_single (capture s) s Hn Hr) as G.
    destruct (ctxState s).
    + rewrite Hr. cbn. split; [exact (proj1 I)|].
      right. exists (capture s). cbn. auto.
    + destruct (playAudio_resumed (capture s) s). exact G.
    + destruct (playAudio_resumed (capture s) s). exact G.
Qed.

Lemma ended_single s id :
  single_node s -> orderly (NodeEnded id) s ->
  single_node (step (NodeEnded id) s).
Proof.
  intros I Ho. unfold step.
  destruct (nth_error (nodes s) id) as [n|] eqn:Hn; [|exact I].
  set (n' := mkNode (buffer n) (playbackRate n) (connected n) (started n)
               (stopped n) true (onended n)).
  assert (E : after (mark_ended id) s
              = with_nodes (set_index (nodes s) id n') s)
    by (unfold after, mark_ended, update_node, modify; cbn;
        now rewrite Hn).
  rewrite E.
  assert (L : no_live (set_index (nodes s) id n')).
  { intros j m Hj.
    destruct (@nth_error_set_index_inv _ _ _ _ j m Hj) as [[-> ->]|[Hne Hj']].
    - unfold live, n'. cbn. destruct (started n); [|reflexivity].
      apply andb_false_r.
    - destruct (live m) eqn:Hm; [|reflexivity].
      elim Hne. exact (Ho j m Hj' Hm). }
  assert (B : forall p,
             resuming s = [] \/
             (exists k, resuming s = [k] /\ (isPlaying s && p) = false)).
  { intros p. destruct I as [_ [Hr|[k [Hr Hp]]]]; [left; exact Hr|].
    right. exists k. rewrite Hp. auto. }
  destruct (onended n) as [k|].
  - unfold after, onended_handler, bind, get, modify.
    destruct (c_audioBuffer k); cbn.
    + destruct (audioContextRef s && _); cbn; apply no_live_single; cbn;
        try exact L.
      * destruct (B false) as [Hr|[k0 [Hr _]]];
          [left; exact Hr|right; exists k0; auto].
      * destruct (B true) as [Hr|[k0 [Hr Hp]]];
          [left; exact Hr|right; exists k0].
        rewrite andb_true_r in Hp. auto.
    + apply no_live_single; cbn; [exact L|].
      destruct (B true) as [Hr|[k0 [Hr Hp]]];
        [left; exact Hr|right; exists k0].
      rewrite andb_true_r in Hp. auto.
  - apply no_live_single; cbn; [exact L|].
    destruct (B true) as [Hr|[k0 [Hr Hp]]];
      [left; exact Hr|right; exists k0].
    rewrite andb_true_r in Hp. auto.
Qed.

Lemma settle_single s o :
  single_node s -> resuming s <> [] ->
  single_node (step (ResumeSettled o) s).
Proof.
  intros I Hne. unfold step.
  destruct I as [Ha [Hr|[k [Hr Hp]]]]; [congruence|].
  assert (Hn : no_live (nodes s)).
  { intros j m Hj. destruct (live m) eqn:Hm; [|reflexivity].
    destruct (Ha j m Hj Hm) as [_ Hq]. congruence. }
  rewrite Hr. cbn. destruct o as [|reason]; cbn.
  - apply playAudio_resumed_single; [exact Hn|reflexivity].
  - apply no_live_single; [exact Hn|left; reflexivity].
Qed.

Lemma orderly_step_single e s :
  single_node s -> enabled e s -> orderly e s -> single_node (step e s).
Proof.
  intros I He Ho. destruct e.
  - apply click_single; assumption.
  - apply single_resetAudio, I.
  - apply single_handleSpeedChange, I.
  - unfold step. destruct (ctxState s); exact I.
  - apply settle_single; [exact I|exact (proj2 He)].
  - apply ended_single; assumption.
  - unfold step. apply preserves_run_all;
      [intros r; apply single_updateProgress|exact I].
Qed.

Lemma pause_creates_no_node s :
  isPlaying s = true ->
  List.length (nodes (step ClickPlayPause s)) = List.length (nodes s).
Proof.
  intros Hp. unfold step, togglePlay. rewrite Hp.
  assert (G : preserves (fun s' => List.length (nodes s')
                                   = List.length (nodes s)) pauseAudio).
  { assert (U : forall id f,
               preserves (fun s' => List.length (nodes s')
                                    = List.length (nodes s))
                         (update_node id f)).
    { intros id f s' H. unfold update_node, modify. cbn.
      destruct (nth_error (nodes s') id); [|exact H].
      cbn. now rewrite set_index_length. }
    unfold pauseAudio, stop, set_connected, cancelAnimationFrame.
    pres; apply U. }
  specialize (G s eq_refl). destruct (pauseAudio s). exact G.
Qed.

(* ------------------------------------------------------------------ *)
(** *** The claims about the player *)

(** C1, as the code has it.  [playAudio] has no guard on the Playing state
    and stops no node; the play/pause button dispatches on [isPlaying]
    instead.  A click while [isPlaying] creates no node, and in every
    orderly run from the mounted component (no second click on play while
    an earlier one still waits for the device; the ended event of a stopped
    node delivered before a later node starts) at most one node is live,
    and none is while [isPlaying] is false. *)
Theorem toggle_keeps_one_node buf cs t0 s :
  orderly_reachable (mounted buf cs t0) s ->
  (live_count s <= 1)%nat
  /\ (isPlaying s = false -> live_count s = 0%nat)
  /\ (isPlaying s = true ->
      List.length (nodes (step ClickPlayPause s)) = List.length (nodes s)).
Proof.
  intros R.
  assert (I : single_node s).
  { induction R as [|s e _ IH He Ho].
    - apply no_live_single; [|left; reflexivity].
      intros j m Hj. destruct j; discriminate.
    - apply orderly_step_single; assumption. }
  destruct (@single_node_count s I) as [H1 H2].
  split; [exact H1|]. split; [exact H2|].
  apply pause_creates_no_node.
Qed.

Lemma toggle_keeps_one_node_witness :
  (live_count (step ClickPlayPause (mounted (silence 1) running 0)) <= 1)%nat.
Proof.
  refine (proj1 (@toggle_keeps_one_node (silence 1) running 0 _ _)).
  apply orderly_step; [apply orderly_init | exact I | reflexivity].
Defined.

(** C1 fails on the code: called in a Playing state, [playAudio] starts a
    second node and leaves the first one running; two clicks on play while
    the device is still suspended reach this through the interface. *)
Lemma play_while_playing_adds_a_node :
  let s := step ClickPlayPause (mounted (silence 5) running 0) in
  let s' := state_of (playAudio s) in
  isPlaying s = true
  /\ live_count s = 1%nat
  /\ List.length (nodes s') = 2%nat
  /\ live_count s' = 2%nat
  /\ option_map stopped (nth_error (nodes s') 0) = Some false
  /\ live_count
       (run [ClickPlayPause; ClickPlayPause; ResumeSettled Resolved]
            (mounted (silence 5) suspended 0)) = 2%nat.
Proof. vm_compute. repeat split. Qed.

(** C2 fails on the code: in the scenario of the claim the reported
    progress is 0, the start time is the one taken at [play], and the
    elapsed expression gives 4.0 of 5.0 seconds, not 3.0. *)
Lemma speed_change_scenario :
  let before := run [ClickPlayPause; ClockAdvance 1]
                    (mounted (silence 5) running 0) in
  let s := run [SelectSpeed (Fin 2); ClockAdvance 1] before in
  duration (silence 5) = Fin 5
  /\ isPlaying s = true
  /\ startTimeRef s = startTimeRef before
  /\ progress s = Fin 0
  /\ elapsed_at (playbackSpeed s) s = Fin 4
  /\ spec_progress (elapsed_at (playbackSpeed s) s) (duration (silence 5))
     = Fin (4 # 5).
Proof. vm_compute. repeat split. Qed.

(** C3 fails on the code: one second into a five-second buffer, after an
    animation frame, the progress is 0 while elapsed over duration is 1/5. *)
Lemma progress_stays_zero_while_playing :
  let s := run [ClickPlayPause; ClockAdvance 1; AnimationFrame]
               (mounted (silence 5) running 0) in
  isPlaying s = true
  /\ progress s = Fin 0
  /\ spec_progress (elapsed_at (playbackSpeed s) s) (duration (silence 5))
     = Fin (1 # 5).
Proof. vm_compute. repeat split. Qed.

Lemma progress_is_never_recomputed_witness :
  progress
    (step AnimationFrame
       (step (ClockAdvance 1)
          (step ClickPlayPause (mounted (silence 5) running 0)))) = Fin 0.
Proof.
  apply (@progress_is_never_recomputed (silence 5) running 0).
  apply reach_step; [|exact I].
  apply reach_step; [|discriminate].
  apply reach_step; [|exact I].
  apply reach_init.
Defined.

(** C7 fails on the code: the multiplier 7.3 is stored, and nothing is
    thrown. *)
Lemma unsupported_speed_is_stored :
  let s0 := mounted (silence 1) running 0 in
  playbackSpeed s0 = Fin 1
  /\ handleSpeedChange (Fin (73 # 10)) s0
     = (Returns tt, with_playbackSpeed (Fin (73 # 10)) s0)
  /\ playbackSpeed (snd (handleSpeedChange (Fin (73 # 10)) s0))
     = Fin (73 # 10).
Proof. cbv zeta. repeat split. Qed.

Lemma speed_change_is_unchecked_witness :
  playbackSpeed
    (snd (handleSpeedChange (Fin (73 # 10))
            (step ClickPlayPause (mounted (silence 1) running 0))))
  = Fin (73 # 10).
Proof.
  exact (proj1
           (@speed_change_is_unchecked (Fin (73 # 10))
              (step ClickPlayPause (mounted (silence 1) running 0))
              eq_refl)).
Defined.

Lemma speed_change_publishes_no_progress_witness :
  progress
    (after (handleSpeedChange (Fin 2))
       (step (ClockAdvance 1)
          (step ClickPlayPause (mounted (silence 5) running 0))))
  = Fin 0.
Proof.
  exact (proj1 (proj2 (proj2 (proj2
           (@speed_change_publishes_no_progress (Fin 2)
              (step (ClockAdvance 1)
                 (step ClickPlayPause (mounted (silence 5) running 0)))
              0%nat
              (started_node (capture (mounted (silence 5) running 0))
                 (silence 5) (Fin 0))
              eq_refl eq_refl eq_refl eq_refl eq_refl))))).
Defined.

Lemma play_fails_when_resume_fails_witness :
  step (ResumeSettled (Rejected "DeviceUnavailable"%string))
       (step ClickPlayPause (mounted (silence 1) suspended 0))
  = with_resuming [] (mounted (silence 1) suspended 0).
Proof.
  exact (proj1 (proj2 (proj2
           (@play_fails_when_resume_fails (mounted (silence 1) suspended 0)
              (silence 1) "DeviceUnavailable"%string
              eq_refl eq_refl eq_refl eq_refl)))).
Defined.

End PlayerFacts.

(* ================================================================== *)
(** ** Further properties of the player *)

Section PlayerMore.
Import Decoder Player PlayerEffect.

Local Arguments nrem : simpl never.
Local Arguments nsub : simpl never.
Local Arguments nmul : simpl never.
Local Arguments ndiv : simpl never.
Local Arguments nge : simpl never.
Local Arguments duration : simpl never.
Local Arguments Qred : simpl never.

Ltac unfold_ops :=
  unfold bind, createBufferSource, set_buffer, set_playbackRate,
    set_connected, set_onended, start, stop, update_node, modify, get, ret,
    throw.

Ltac keep_step :=
  match goal with
  | |- preserves _ (bind _ _) => apply preserves_bind; [|intros ?]
  | |- preserves _ (ret _) => apply preserves_ret
  | |- preserves _ (throw _) => apply preserves_throw
  | |- preserves _ get => apply preserves_get
  | |- preserves _ (try_catch _) => apply preserves_try
  | |- preserves _ (modify _) =>
      apply preserves_modify;
      let s := fresh "s" in let H := fresh "H" in
      intros s H; first [exact H | reflexivity]
  | |- preserves _ (match ?x with _ => _ end) => destruct x
  end.

Ltac keeps := repeat keep_step.

(** What [stopAudio] leaves of a state. *)
Lemma stopAudio_effect s :
  exists s',
    stopAudio s = (Returns tt, s')
    /\ isPlaying s' = false
    /\ sourceNodeRef s' = None
    /\ (audioBuffer s' = audioBuffer s
        /\ playbackSpeed s' = playbackSpeed s
        /\ progress s' = progress s
        /\ audioContextRef s' = audioContextRef s
        /\ startTimeRef s' = startTimeRef s
        /\ pauseTimeRef s' = pauseTimeRef s
        /\ ctxState s' = ctxState s
        /\ currentTime s' = currentTime s
        /\ resuming s' = resuming s)
    /\ List.length (nodes s') = List.length (nodes s)
    /\ (forall id n, sourceNodeRef s = Some id ->
          nth_error (nodes s') id = Some n -> live n = false).
Proof.
  unfold stopAudio. unfold_ops.
  unfold try_catch, cancelAnimationFrame, modify.
  destruct (sourceNodeRef s) as [id|] eqn:Hr.
  - destruct (nth_error (nodes s) id) as [n|] eqn:Hn.
    + destruct (started n) as [o|] eqn:Hs.
      * repeat (cbn; rewrite ?Hn, ?Hs,
                  ?(@nth_error_set_index _ (nodes s) id n _ Hn)).
        rewrite set_index_twice.
        destruct (animationFrameRef s =? 0)%nat; cbn;
          (eexists; split; [reflexivity|]; cbn;
           repeat split; try apply set_index_length);
          intros id' n' [= <-] Hn';
          rewrite (@nth_error_set_index _ (nodes s) id n _ Hn) in Hn';
          injection Hn' as <-; reflexivity.
      * repeat (cbn; rewrite ?Hn, ?Hs).
        destruct (animationFrameRef s =? 0)%nat; cbn;
          (eexists; split; [reflexivity|]; cbn; repeat split);
          intros id' n' [= <-] Hn'; rewrite Hn in Hn';
          injection Hn' as <-; unfold live; rewrite Hs; reflexivity.
    + repeat (cbn; rewrite ?Hn).
      destruct (animationFrameRef s =? 0)%nat; cbn;
        (eexists; split; [reflexivity|]; cbn; repeat split);
        intros id' n' [= <-] Hn'; rewrite Hn in Hn'; discriminate.
  - cbn. destruct (animationFrameRef s =? 0)%nat; cbn;
      (eexists; split; [reflexivity|]; cbn; repeat split);
      try exact Hr; intros; discriminate.
Qed.

(** X1.  The restart button never fails, whatever the state: [resetAudio]
    returns, and leaves the player stopped at position 0 with no node held,
    the node it held being no longer live, also when that node could not
    be stopped.  After an orderly run no node at all is live. *)
Theorem restart_always_rewinds s :
  exists s',
    resetAudio s = (Returns tt, s')
    /\ isPlaying s' = false
    /\ sourceNodeRef s' = None
    /\ pauseTimeRef s' = Fin 0
    /\ progress s' = Fin 0
    /\ playbackSpeed s' = playbackSpeed s
    /\ (forall id n, sourceNodeRef s = Some id ->
          nth_error (nodes s') id = Some n -> live n = false)
    /\ (single_node s -> live_count s' = 0%nat).
Proof.
  destruct (stopAudio_effect s)
    as [s1 [E [Hp [Hr [[_ [Hv _]] [_ Hl]]]]]].
  exists (with_progress (Fin 0) (with_pauseTimeRef (Fin 0) s1)).
  split; [unfold resetAudio, bind, modify; rewrite E; reflexivity|].
  cbn. repeat split; try assumption.
  intros I.
  pose proof (@single_resetAudio s I) as I'.
  unfold resetAudio, bind, modify in I'. rewrite E in I'. cbn in I'.
  apply (proj2 (@single_node_count _ I')). cbn. exact Hp.
Qed.

(** *** Arithmetic of positions *)

Lemma Qtrunc_floor q : 0 <= q -> Qtrunc q = Qfloor q.
Proof.
  destruct q as [n dd]. unfold Qle, Qtrunc, Qfloor. simpl. intros H.
  apply Z.quot_div_nonneg; lia.
Qed.

Lemma Qdiv_nonneg a d : 0 <= a -> 0 < d -> 0 <= a / d.
Proof.
  intros Ha Hd. apply Qle_shift_div_l; [exact Hd|]. now rewrite Qmult_0_l.
Qed.

Lemma Qdiv_mult_back a d : 0 < d -> d * (a / d) == a.
Proof.
  intros Hd. apply Qmult_div_r. intros E. rewrite E in Hd.
  now apply Qlt_irrefl in Hd.
Qed.

Lemma nrem_range a d :
  0 <= a -> 0 < d ->
  exists r k,
    nrem (Fin a) (Fin d) = Fin r
    /\ 0 <= r /\ r < d
    /\ (0 <= k)%Z /\ a == r + d * inject_Z k.
Proof.
  intros Ha Hd.
  exists (Qred (a - d * inject_Z (Qtrunc (a / d)))), (Qtrunc (a / d)).
  pose proof (Qdiv_nonneg Ha Hd) as Hq.
  pose proof (Qdiv_mult_back a Hd) as Hb.
  rewrite (Qtrunc_floor Hq).
  pose proof (Qfloor_le (a / d)) as F1.
  pose proof (Qlt_floor (a / d)) as F2.
  assert (K : (0 <= Qfloor (a / d))%Z).
  { change 0%Z with (Qfloor 0). apply Qfloor_resp_le. exact Hq. }
  split.
  - unfold nrem. destruct (Qeq_bool d 0) eqn:E;
      [|now rewrite (Qtrunc_floor Hq)].
    apply Qeq_bool_iff in E. rewrite E in Hd. now apply Qlt_irrefl in Hd.
  - rewrite Qred_correct. repeat split.
    + assert (d * inject_Z (Qfloor (a / d)) <= a).
      { rewrite <- Hb at 2. apply Qmult_le_l; assumption. }
      apply (Qplus_le_l _ _ (d * inject_Z (Qfloor (a / d)))).
      ring_simplify. exact H.
    + assert (a < d * inject_Z (Qfloor (a / d) + 1)).
      { rewrite <- Hb at 1. apply Qmult_lt_l; assumption. }
      rewrite inject_Z_plus in H.
      apply (Qplus_lt_l _ _ (d * inject_Z (Qfloor (a / d)))).
      ring_simplify. ring_simplify in H. exact H.
    + exact K.
    + ring.
Qed.

Lemma nrem_within a d :
  0 <= a -> a < d -> nrem (Fin a) (Fin d) = Fin (Qred a).
Proof.
  intros H0 H1. unfold nrem.
  assert (Hd : 0 < d) by (eapply Qle_lt_trans; eassumption).
  destruct (Qeq_bool d 0) eqn:E.
  - apply Qeq_bool_iff in E. rewrite E in Hd. now apply Qlt_irrefl in Hd.
  - f_equal. apply Qred_complete.
    rewrite Qtrunc_small.
    + change (inject_Z 0) with 0. ring.
    + apply Qdiv_nonneg; assumption.
    + apply Qlt_shift_div_r; [exact Hd|]. now rewrite Qmult_1_l.
Qed.

Lemma nneg_Qred a : 0 <= a -> nneg (Fin (Qred a)) = false.
Proof. intros H. apply nneg_nonneg. now rewrite Qred_correct. Qed.

(** The start time taken by [playAudio], and the elapsed time read [dt]
    seconds later. *)
Lemma start_time_fin ct o v :
  0 < v ->
  nsub (Fin ct) (ndiv (Fin o) (Fin v)) = Fin (Qred (ct - Qred (o / v))).
Proof.
  intros Hv. unfold nsub, ndiv.
  destruct (Qeq_bool v 0) eqn:E; [|reflexivity].
  apply Qeq_bool_iff in E. rewrite E in Hv. now apply Qlt_irrefl in Hv.
Qed.

Lemma elapsed_from_start ct o v dt :
  0 < v ->
  nmul (nsub (Fin (Qred (ct + dt))) (nsub (Fin ct) (ndiv (Fin o) (Fin v))))
       (Fin v)
  = Fin (Qred (o + dt * v)).
Proof.
  intros Hv. rewrite (start_time_fin ct o Hv).
  apply elapsed_fin; [|apply Qred_idem].
  rewrite !Qred_correct. field.
  intros E. rewrite E in Hv. now apply Qlt_irrefl in Hv.
Qed.

(** *** Playing from a paused position *)

Lemma play_from_ready s buf d v p :
  ready_to_play s buf d v p ->
  step ClickPlayPause s = playing_state (capture s) buf (Fin (Qred p)) s.
Proof.
  intros [Hp [Hb [Hc [Hr [Hd [Hv [Ht [V [P0 P1]]]]]]]]].
  apply click_play; try assumption.
  - rewrite Hv. reflexivity.
  - rewrite Ht, Hd. apply nrem_within; assumption.
  - now rewrite Qred_correct.
Qed.

Lemma elapsed_while_playing s buf d v p dt :
  ready_to_play s buf d v p ->
  let s1 := step (ClockAdvance dt)
              (playing_state (capture s) buf (Fin (Qred p)) s) in
  elapsed_at (playbackSpeed s1) s1 = Fin (Qred (p + dt * v))
  /\ s1 = with_currentTime (Qred (currentTime s + dt))
            (playing_state (capture s) buf (Fin (Qred p)) s).
Proof.
  intros [Hp [Hb [Hc [Hr [Hd [Hv [Ht [V [P0 P1]]]]]]]]]. cbv zeta.
  assert (E : step (ClockAdvance dt)
                (playing_state (capture s) buf (Fin (Qred p)) s)
              = with_currentTime (Qred (currentTime s + dt))
                  (playing_state (capture s) buf (Fin (Qred p)) s))
    by (unfold step; cbn [ctxState playing_state]; now rewrite Hr).
  split; [|exact E]. rewrite E. unfold elapsed_at. cbn. rewrite Hv.
  rewrite (elapsed_from_start (currentTime s) (Qred p) dt V).
  f_equal. apply Qred_complete. now rewrite Qred_correct.
Qed.

(** X2.  While a node plays at speed [v] from position [p], the elapsed
    time read by the player is [p + dt * v] after [dt] seconds of device
    time: the start time taken by [playAudio] and the elapsed expression of
    [pauseAudio] and of the ended handler are inverse to each other. *)
Theorem elapsed_tracks_position s buf d v p dt :
  ready_to_play s buf d v p ->
  let s1 := step (ClockAdvance dt) (step ClickPlayPause s) in
  isPlaying s1 = true
  /\ sourceNodeRef s1 = Some (List.length (nodes s))
  /\ nth_error (nodes s1) (List.length (nodes s))
     = Some (started_node (capture s) buf (Fin (Qred p)))
  /\ elapsed_at (playbackSpeed s1) s1 = Fin (Qred (p + dt * v)).
Proof.
  intros R. cbv zeta. rewrite (play_from_ready R).
  destruct (elapsed_while_playing dt R) as [E1 E2].
  split; [rewrite E2; reflexivity|].
  split; [rewrite E2; reflexivity|].
  split; [rewrite E2; cbn; apply nth_error_last|exact E1].
Qed.



(** X4.  [playAudio] folds the retained offset into the buffer: for a
    retained offset [p >= 0] and a buffer of [d > 0] seconds, the node is
    started at an offset [r] with [0 <= r < d] that differs from [p] by a
    whole number of buffer lengths. *)
Theorem play_wraps_the_offset s buf d p :
  isPlaying s = false ->
  audioBuffer s = Some buf ->
  audioContextRef s = true ->
  ctxState s = running ->
  isFinite (playbackSpeed s) = true ->
  duration buf = Fin d -> 0 < d ->
  pauseTimeRef s = Fin p -> 0 <= p ->
  exists r k,
    step ClickPlayPause s = playing_state (capture s) buf (Fin r) s
    /\ nth_error (nodes (step ClickPlayPause s)) (List.length (nodes s))
       = Some (started_node (capture s) buf (Fin r))
    /\ 0 <= r /\ r < d
    /\ (0 <= k)%Z /\ p == r + d * inject_Z k.
Proof.
  intros Hp Hb Hc Hr Hf Hd D Ht P.
  destruct (nrem_range P D) as [r [k [E [R0 [R1 [K Hk]]]]]].
  exists r, k.
  assert (G : step ClickPlayPause s = playing_state (capture s) buf (Fin r) s)
    by (apply click_play; try assumption; now rewrite Ht, Hd).
  split; [exact G|]. split; [rewrite G; cbn; apply nth_error_last|].
  auto.
Qed.

Lemma play_from_ready_facts s buf d v p :
  ready_to_play s buf d v p ->
  let s1 := step ClickPlayPause s in
  isPlaying s1 = true
  /\ sourceNodeRef s1 = Some (List.length (nodes s))
  /\ nth_error (nodes s1) (List.length (nodes s))
     = Some (started_node (capture s) buf (Fin (Qred p)))
  /\ playbackSpeed s1 = Fin v
  /\ elapsed_at (playbackSpeed s1) s1 = Fin (Qred p).
Proof.
  intros R. cbv zeta. rewrite (play_from_ready R).
  destruct R as [_ [_ [_ [_ [_ [B [_ [V _]]]]]]]].
  split; [reflexivity|]. split; [reflexivity|].
  split; [cbn; apply nth_error_last|]. split; [exact B|].
  unfold elapsed_at. cbn. rewrite B.
  rewrite (start_time_fin (currentTime s) (Qred p) V).
  apply elapsed_fin; [|apply Qred_idem].
  rewrite !Qred_correct. field.
  intros Z. rewrite Z in V. now apply Qlt_irrefl in V.
Qed.

Lemma restart_makes_ready s buf d v :
  audioBuffer s = Some buf ->
  audioContextRef s = true ->
  ctxState s = running ->
  playbackSpeed s = Fin v -> 0 < v ->
  duration buf = Fin d -> 0 < d ->
  ready_to_play (step ClickRestart s) buf d v 0
  /\ List.length (nodes (step ClickRestart s)) = List.length (nodes s).
Proof.
  intros Hb Hc Hr Hv V Hd D.
  destruct (stopAudio_effect s)
    as [s1 [E [Hp [_ [[F1 [F2 [_ [F4 [_ [_ [F7 _]]]]]]] [L _]]]]]].
  assert (G : step ClickRestart s
              = with_progress (Fin 0) (with_pauseTimeRef (Fin 0) s1))
    by (unfold step, after, resetAudio, bind, modify; now rewrite E).
  rewrite G. split; [|exact L].
  unfold ready_to_play. cbn.
  repeat split; try congruence; try assumption. apply Qle_refl.
Qed.

(** X5.  Restart and play: whatever the player was doing, a click on
    restart followed by a click on play starts a fresh node at offset 0,
    held by [sourceNodeRef], with the elapsed time reading 0. *)
Theorem restart_then_play_starts_at_zero s buf d v :
  audioBuffer s = Some buf ->
  audioContextRef s = true ->
  ctxState s = running ->
  playbackSpeed s = Fin v -> 0 < v ->
  duration buf = Fin d -> 0 < d ->
  let s2 := step ClickPlayPause (step ClickRestart s) in
  isPlaying s2 = true
  /\ sourceNodeRef s2 = Some (List.length (nodes s))
  /\ (exists n, nth_error (nodes s2) (List.length (nodes s)) = Some n
                /\ started n = Some (Fin 0) /\ live n = true)
  /\ elapsed_at (playbackSpeed s2) s2 = Fin 0.
Proof.
  intros Hb Hc Hr Hv V Hd D. cbv zeta.
  destruct (@restart_makes_ready s buf d v Hb Hc Hr Hv V Hd D) as [R L].
  destruct (play_from_ready_facts R) as [A [B [C [_ E]]]].
  cbv zeta in A, B, C, E. rewrite L in B, C.
  split; [exact A|]. split; [exact B|]. split; [|exact E].
  eexists. split; [exact C|]. split; reflexivity.
Qed.

(** X6.  A speed chosen while stopped or paused is the one the next play
    uses: the node is started at the retained position with that speed as
    its rate, and the elapsed time still reads the retained position. *)
Theorem stored_speed_is_used_by_next_play s buf d v p v' :
  ready_to_play s buf d v p ->
  0 < v' ->
  let s2 := step ClickPlayPause (step (SelectSpeed (Fin v')) s) in
  isPlaying s2 = true
  /\ playbackSpeed s2 = Fin v'
  /\ (exists n, nth_error (nodes s2) (List.length (nodes s)) = Some n
                /\ playbackRate n = Fin v'
                /\ started n = Some (Fin (Qred p))
                /\ live n = true)
  /\ elapsed_at (playbackSpeed s2) s2 = Fin (Qred p).
Proof.
  intros R V'. cbv zeta.
  assert (G : step (SelectSpeed (Fin v')) s = with_playbackSpeed (Fin v') s).
  { destruct R as [Hp _].
    unfold step, after, handleSpeedChange, bind, get, modify. cbn.
    now rewrite Hp. }
  assert (R' : ready_to_play (with_playbackSpeed (Fin v') s) buf d v' p).
  { destruct R as [Hp [Hb [Hc [Hr [Hd [Hv [Ht [V [P0 P1]]]]]]]]].
    unfold ready_to_play. cbn. repeat split; assumption. }
  rewrite G.
  destruct (play_from_ready_facts R') as [A [_ [C [B E]]]].
  cbv zeta in A, B, C, E. cbn in C.
  split; [exact A|]. split; [exact B|]. split; [|exact E].
  eexists. split; [exact C|]. repeat split.
Qed.

(** *** The ended event after a pause *)




(** *** The ended event of a node, played to its end or paused, and the
    next play *)














(** *** A speed change during playback *)

Lemma speed_change_while_playing s buf d v p dt v' :
  ready_to_play s buf d v p ->
  step (SelectSpeed (Fin v'))
       (step (ClockAdvance dt) (step ClickPlayPause s))
  = with_nodes
      (nodes s ++ [with_rate (Fin v')
                     (started_node (capture s) buf (Fin (Qred p)))])
      (with_playbackSpeed (Fin v')
         (with_currentTime (Qred (currentTime s + dt))
            (playing_state (capture s) buf (Fin (Qred p)) s))).
Proof.
  intros R. rewrite (play_from_ready R).
  destruct (elapsed_while_playing dt R) as [_ E2]. cbv zeta in E2.
  rewrite E2. destruct R as [_ [_ [Hc _]]].
  unfold step, after, handleSpeedChange, set_playbackRate.
  unfold_ops. cbn. rewrite Hc. cbn.
  rewrite nth_error_last. cbn. rewrite set_index_last. reflexivity.
Qed.

(** X8.  The completion test keeps the speed that was selected when play
    was clicked.  After a speed change during playback the ended handler
    still multiplies the device time by the old speed [v]: a node that ends
    while [p + (dt1 + dt2) * v] is short of the threshold leaves the player
    in the Playing state although its node is no longer live, whatever the
    new speed is. *)
Theorem completion_test_uses_the_speed_at_play s buf d v p dt1 v' dt2 :
  ready_to_play s buf d v p ->
  let id := List.length (nodes s) in
  let s5 :=
    step (NodeEnded id)
      (step (ClockAdvance dt2)
         (step (SelectSpeed (Fin v'))
            (step (ClockAdvance dt1) (step ClickPlayPause s)))) in
  (exists n, nth_error (nodes s5) id = Some n
             /\ playbackRate n = Fin v' /\ live n = false)
  /\ sourceNodeRef s5 = Some id
  /\ (p + (dt1 + dt2) * v < d - (1 # 10) ->
        isPlaying s5 = true /\ pauseTimeRef s5 = Fin p)
  /\ (d - (1 # 10) <= p + (dt1 + dt2) * v ->
        isPlaying s5 = false /\ pauseTimeRef s5 = Fin 0
        /\ progress s5 = Fin 0).
Proof.
  intros R. cbv zeta. rewrite (speed_change_while_playing dt1 v' R).
  destruct R as [Hp [Hb [Hc [Hr [Hd [Hv [Ht [V [P0 P1]]]]]]]]].
  set (sn := with_rate (Fin v')
               (started_node (capture s) buf (Fin (Qred p)))).
  match goal with
  | |- context [step (ClockAdvance dt2) ?x] =>
      assert (E4 : step (ClockAdvance dt2) x
                   = with_currentTime
                       (Qred (Qred (currentTime s + dt1) + dt2)) x)
        by (unfold step; cbn; now rewrite Hr)
  end.
  rewrite E4. clear E4.
  match goal with
  | |- context [step (NodeEnded _) ?x] => set (s4 := x)
  end.
  assert (N : nth_error (nodes s4) (List.length (nodes s)) = Some sn)
    by (cbn; apply nth_error_last).
  assert (E5 : step (NodeEnded (List.length (nodes s))) s4
               = after (onended_handler (capture s))
                   (after (mark_ended (List.length (nodes s))) s4))
    by (unfold step; rewrite N; reflexivity).
  assert (M : after (mark_ended (List.length (nodes s))) s4
              = with_nodes
                  (nodes s ++
                   [mkNode (buffer sn) (playbackRate sn) (connected sn)
                      (started sn) (stopped sn) true (onended sn)]) s4).
  { unfold after, mark_ended, update_node, modify. cbn.
    rewrite nth_error_last. cbn. now rewrite set_index_last. }
  assert (G : elapsed_at (c_playbackSpeed (capture s))
                (after (mark_ended (List.length (nodes s))) s4)
              = Fin (Qred (p + (dt1 + dt2) * v))).
  { rewrite M. unfold elapsed_at. cbn. rewrite Hv.
    rewrite (start_time_fin (currentTime s) (Qred p) V).
    apply elapsed_fin; [|apply Qred_idem].
    rewrite !Qred_correct. field.
    intros Z. rewrite Z in V. now apply Qlt_irrefl in V. }
  assert (C4 : audioContextRef
                 (after (mark_ended (List.length (nodes s))) s4) = true)
    by (rewrite M; exact Hc).
  destruct (@onended_guard (capture s) buf
              (after (mark_ended (List.length (nodes s))) s4)
              (Qred (p + (dt1 + dt2) * v)) d Hb C4 G Hd) as [G1 G2].
  rewrite E5.
  assert (K : forall s6,
             (s6 = with_progress (Fin 0) (with_pauseTimeRef (Fin 0)
                     (with_isPlaying false
                        (after (mark_ended (List.length (nodes s))) s4)))
              \/ s6 = after (mark_ended (List.length (nodes s))) s4) ->
             (exists n, nth_error (nodes s6) (List.length (nodes s)) = Some n
                        /\ playbackRate n = Fin v' /\ live n = false)
             /\ sourceNodeRef s6 = Some (List.length (nodes s))).
  { intros s6 [-> | ->]; rewrite M; cbn;
      (split; [eexists; split; [apply nth_error_last|split; reflexivity]
              |reflexivity]). }
  destruct (Qlt_le_dec (p + (dt1 + dt2) * v) (d - (1 # 10))) as [L|L].
  - rewrite G2 by now rewrite Qred_correct.
    destruct (K _ (or_intror eq_refl)) as [K1 K2].
    split; [exact K1|]. split; [exact K2|]. split.
    + intros _. rewrite M. cbn. auto.
    + intros H. exfalso. eapply Qlt_irrefl, Qlt_le_trans; eassumption.
  - rewrite G1 by now rewrite Qred_correct.
    destruct (K _ (or_introl eq_refl)) as [K1 K2].
    split; [exact K1|]. split; [exact K2|]. split.
    + intros H. exfalso. eapply Qlt_irrefl, Qlt_le_trans; eassumption.
    + intros _. repeat split.
Qed.

(** *** The animation-frame loop *)

Lemma frames_update_node id f : preserves no_frames (update_node id f).
Proof.
  unfold update_node. apply preserves_modify. intros s H.
  destruct (nth_error (nodes s) id); exact H.
Qed.

Lemma frames_cancel id : preserves no_frames (cancelAnimationFrame id).
Proof.
  unfold cancelAnimationFrame. apply preserves_modify.
  intros s [H1 [H2 H3]]. unfold no_frames. cbn. rewrite H1. auto.
Qed.

Lemma frames_stop id : preserves no_frames (stop id).
Proof. unfold stop. keeps; apply frames_update_node. Qed.

Lemma frames_start id o : preserves no_frames (start id o).
Proof. unfold start. keeps; apply frames_update_node. Qed.

Lemma frames_set_playbackRate id v :
  preserves no_frames (set_playbackRate id v).
Proof. unfold set_playbackRate. keeps; apply frames_update_node. Qed.

Lemma frames_stopAudio : preserves no_frames stopAudio.
Proof.
  unfold stopAudio, set_connected. keeps;
    first [apply frames_stop | apply frames_update_node
          | apply frames_cancel].
Qed.

Lemma frames_pauseAudio : preserves no_frames pauseAudio.
Proof.
  unfold pauseAudio, set_connected. keeps;
    first [apply frames_stop | apply frames_update_node
          | apply frames_cancel].
Qed.

Lemma frames_resetAudio : preserves no_frames resetAudio.
Proof. unfold resetAudio. keeps. apply frames_stopAudio. Qed.

Lemma frames_handleSpeedChange v :
  preserves no_frames (handleSpeedChange v).
Proof. unfold handleSpeedChange. keeps. apply frames_set_playbackRate. Qed.

Lemma frames_onended k : preserves no_frames (onended_handler k).
Proof. unfold onended_handler. keeps. Qed.

Lemma frames_updateProgress k :
  c_isPlaying k = false -> preserves no_frames (updateProgress k).
Proof.
  intros Hk. unfold updateProgress. rewrite Hk.
  apply preserves_bind; [apply preserves_get|]. intros s0.
  destruct (c_audioBuffer k); [|apply preserves_ret].
  rewrite orb_true_r. apply preserves_ret.
Qed.

Lemma frames_playAudio_resumed k :
  c_isPlaying k = false -> preserves no_frames (playAudio_resumed k).
Proof.
  intros Hk.
  unfold playAudio_resumed, set_buffer, set_connected, set_onended.
  keeps;
    first [ apply frames_start | apply frames_set_playbackRate
          | apply frames_update_node | apply (@frames_updateProgress k Hk)
          | (intros s H; exact H) ].
Qed.

Lemma frames_settle_all o l s :
  Forall (fun k => c_isPlaying k = false) l ->
  no_frames s ->
  no_frames (run_all (fun k => playAudio_settle k o) l s).
Proof.
  intros Hl. revert s. induction Hl as [|k l Hk _ IH]; intros s H;
    [exact H|].
  simpl. apply IH. unfold after.
  destruct o; [apply (@frames_playAudio_resumed k Hk), H|exact H].
Qed.

Lemma frames_step e s : no_frames s -> no_frames (step e s).
Proof.
  intros H. destruct e; unfold step.
  - unfold togglePlay, playAudio.
    destruct (isPlaying s) eqn:Hp.
    + pose proof (@frames_pauseAudio s H) as G.
      destruct (pauseAudio s); exact G.
    + destruct (audioBuffer s); [|exact H].
      destruct (negb (audioContextRef s)); [exact H|].
      assert (Hk : c_isPlaying (capture s) = false) by exact Hp.
      pose proof (@frames_playAudio_resumed (capture s) Hk s H) as G.
      destruct (ctxState s).
      * destruct H as [H1 [H2 H3]]. unfold no_frames. cbn.
        repeat split; try assumption.
        apply Forall_app. split; [exact H3|]. constructor; [exact Hk|].
        constructor.
      * destruct (playAudio_resumed (capture s) s); exact G.
      * destruct (playAudio_resumed (capture s) s); exact G.
  - apply frames_resetAudio, H.
  - apply frames_handleSpeedChange, H.
  - destruct (ctxState s); exact H.
  - apply frames_settle_all; [exact (proj2 (proj2 H))|].
    destruct H as [H1 [H2 H3]].
    destruct o; unfold no_frames; cbn; repeat split; auto.
  - destruct (nth_error (nodes s) id) as [n|]; [|exact H].
    pose proof (@frames_update_node id
                  (fun n => mkNode (buffer n) (playbackRate n) (connected n)
                              (started n) (stopped n) true (onended n))
                  s H) as G.
    destruct (onended n); [apply frames_onended|]; exact G.
  - destruct H as [H1 [H2 H3]]. rewrite H1. cbn.
    unfold no_frames. cbn. auto.
Qed.

(** X9.  The animation-frame loop never starts.  [playAudio] calls the
    [updateProgress] of the render in which [isPlaying] was still false,
    which returns at once; so in every state the mounted component can
    reach no frame is requested, [animationFrameRef] stays 0, and an
    animation frame changes nothing. *)
Theorem animation_frames_are_never_requested buf cs t0 s :
  reachable (mounted buf cs t0) s ->
  frameRequests s = []
  /\ animationFrameRef s = 0%nat
  /\ step AnimationFrame s = s.
Proof.
  intros R.
  assert (H : no_frames s).
  { induction R as [|s e _ IH _].
    - unfold no_frames. cbn. auto.
    - apply frames_step, IH. }
  destruct H as [H1 [H2 _]]. split; [exact H1|]. split; [exact H2|].
  unfold step. rewrite H1. cbn. destruct s. cbn in *. now subst.
Qed.

(** *** Removing the component *)

(** X10.  The clean-up of the effect never fails and silences the
    player: it returns with [isPlaying] false, no node held, the retained
    offset kept and the context no longer running, so that the clock of
    the context stands still; after an orderly run no node is live. *)
Theorem cleanup_silences_the_player s :
  exists s',
    cleanup s = (Returns tt, s')
    /\ isPlaying s' = false
    /\ sourceNodeRef s' = None
    /\ pauseTimeRef s' = pauseTimeRef s
    /\ (audioContextRef s = true ->
        ctxState s' <> running
        /\ forall dt, step (ClockAdvance dt) s' = s')
    /\ (single_node s -> live_count s' = 0%nat).
Proof.
  destruct (stopAudio_effect s)
    as [s1 [E [Hp [Hr [[_ [_ [_ [Hc [_ [Ht [Hs _]]]]]]] _]]]]].
  pose proof (@stopAudio_single s) as I1. rewrite E in I1. cbn in I1.
  unfold cleanup, bind, suspend_context, modify. rewrite E. rewrite Hc.
  destruct (audioContextRef s) eqn:C.
  - destruct (ctxState s1) eqn:S1; eexists; (split; [reflexivity|]);
      cbn; repeat split; try assumption; try discriminate;
      try (intros dt; unfold step; cbn; rewrite ?S1; reflexivity);
      try (rewrite S1; discriminate);
      intros I; apply (proj2 (@single_node_count s1 (I1 I))); exact Hp.
  - eexists. split; [reflexivity|]. repeat split; try assumption.
    + discriminate.
    + discriminate.
    + intros I. apply (proj2 (@single_node_count s1 (I1 I))). exact Hp.
Qed.

End PlayerMore.

(* ================================================================== *)
(** ** Further properties of the decoder *)

Section DecoderMore.
Import Decoder Player.

Lemma createBuffer_cases ctx nc n rate :
  (exists buf, createBuffer ctx nc n rate = Returns buf
               /\ buf = mkAudioBuffer nc n rate
                          (repeat (repeat (Fin 0) n) nc)
               /\ (1 <= nc <= maxChannels)%nat /\ (1 <= n)%nat
               /\ rate_supported ctx rate)
  \/ (createBuffer ctx nc n rate = Throws NotSupportedError
      /\ (nc = 0%nat \/ (maxChannels < nc)%nat \/ n = 0%nat
          \/ ~ rate_supported ctx rate)).
Proof.
  unfold createBuffer, rate_supported.
  destruct (Nat.eqb_spec nc 0); [right; cbn; auto|].
  destruct (Nat.ltb_spec maxChannels nc); [right; cbn; auto|].
  destruct (Nat.eqb_spec n 0); [right; cbn; auto|].
  destruct (Z.ltb_spec rate (minSampleRate ctx));
    [right; cbn; split; [reflexivity|]; do 3 right; lia|].
  destruct (Z.ltb_spec (maxSampleRate ctx) rate);
    [right; cbn; split; [reflexivity|]; do 3 right; lia|].
  destruct (Z.leb_spec rate 0);
    [right; cbn; split; [reflexivity|]; do 3 right; lia|].
  left. cbn. eexists. split; [reflexivity|]. split; [reflexivity|].
  repeat split; lia.
Qed.

(** X11.  [decodeAudioData] fails in exactly three ways and succeeds
    otherwise: input that is not base64 gives the InvalidCharacterError of
    [atob]; an odd number of bytes gives the RangeError of the [Int16Array]
    view; no bytes at all, or a sample rate the context does not support,
    gives the NotSupportedError of [createBuffer]; and every input with a
    positive even number of bytes and a supported rate gives a buffer. *)
Theorem decodeAudioData_outcomes base64Data ctx rate :
  (atob base64Data = None ->
     decodeAudioData base64Data ctx rate = Throws InvalidCharacterError)
  /\ (forall bin, atob base64Data = Some bin ->
        (Nat.odd (String.length bin) = true ->
           decodeAudioData base64Data ctx rate = Throws RangeError)
        /\ (Nat.even (String.length bin) = true ->
            String.length bin = 0%nat \/ ~ rate_supported ctx rate ->
            decodeAudioData base64Data ctx rate = Throws NotSupportedError)
        /\ (Nat.even (String.length bin) = true ->
            (0 < String.length bin)%nat -> rate_supported ctx rate ->
            exists buf, decodeAudioData base64Data ctx rate = Returns buf))
  /\ ((exists buf, decodeAudioData base64Data ctx rate = Returns buf) <->
      (exists bin, atob base64Data = Some bin
                   /\ Nat.even (String.length bin) = true
                   /\ (0 < String.length bin)%nat
                   /\ rate_supported ctx rate)).
Proof.
  assert (A : atob base64Data = None ->
              decodeAudioData base64Data ctx rate
              = Throws InvalidCharacterError)
    by (intros H; unfold decodeAudioData, decode; now rewrite H).
  assert (B : forall bin, atob base64Data = Some bin ->
              Nat.odd (String.length bin) = true ->
              decodeAudioData base64Data ctx rate = Throws RangeError).
  { intros bin Ha Ho. unfold decodeAudioData.
    rewrite (decode_bytes _ Ha). fold (bytes_of bin). cbn [obind].
    unfold Int16Array_of. rewrite bytes_of_length.
    rewrite <- Nat.negb_odd, Ho. reflexivity. }
  assert (C : forall bin, atob base64Data = Some bin ->
              Nat.even (String.length bin) = true ->
              let n := (String.length bin / 2)%nat in
              String.length bin = (2 * n)%nat
              /\ ((exists buf, decodeAudioData base64Data ctx rate
                               = Returns buf
                   /\ (1 <= n)%nat /\ rate_supported ctx rate)
                  \/ (decodeAudioData base64Data ctx rate
                      = Throws NotSupportedError
                      /\ (n = 0%nat \/ ~ rate_supported ctx rate)))).
  { intros bin Ha He. cbv zeta.
    pose proof (@decodeAudioData_unfold base64Data bin ctx rate Ha He) as E.
    cbv zeta in E.
    apply Nat.even_spec in He. destruct He as [m Hm].
    assert (Hlen : List.length (int16_view (bytes_of bin)) = m)
      by (apply int16_view_length; now rewrite bytes_of_length).
    assert (Hdiv : (String.length bin / 2)%nat = m)
      by (rewrite Hm, Nat.mul_comm; apply Nat.div_mul; lia).
    rewrite Hlen in E. rewrite Hdiv. split; [exact Hm|].
    destruct (createBuffer_cases ctx 1 m rate)
      as [[buf [Hc [_ [_ [Hn Hr]]]]]|[Hc Hw]]; rewrite Hc in E;
      cbn [obind] in E.
    - left. eexists. split; [exact E|]. auto.
    - right. split; [exact E|].
      destruct Hw as [W|[W|[W|W]]]; auto; try discriminate.
      unfold maxChannels in W. lia. }
  split; [exact A|]. split.
  - intros bin Ha. split; [exact (B bin Ha)|]. split.
    + intros He Hw. destruct (C bin Ha He) as [Hl [[buf [_ [Hn Hr]]]|[E _]]];
        [|exact E].
      exfalso. destruct Hw as [W|W]; [lia|auto].
    + intros He Hpos Hr.
      destruct (C bin Ha He) as [Hl [[buf [E _]]|[_ [W|W]]]];
        [exists buf; exact E|lia|contradiction].
  - split.
    + intros [buf E]. destruct (atob base64Data) as [bin|] eqn:Ha;
        [|rewrite (A eq_refl) in E; discriminate].
      exists bin. split; [reflexivity|].
      destruct (Nat.even (String.length bin)) eqn:He.
      * destruct (C bin eq_refl He) as [Hl [[buf' [_ [Hn Hr]]]|[E' _]]];
          [|rewrite E' in E; discriminate].
        split; [reflexivity|]. split; [lia|exact Hr].
      * rewrite (B bin eq_refl) in E; [discriminate|].
        now rewrite <- Nat.negb_even, He.
    + intros [bin [Ha [He [Hpos Hr]]]].
      destruct (C bin Ha He) as [Hl [[buf [E _]]|[_ [W|W]]]];
        [exists buf; exact E|lia|contradiction].
Qed.

(** X12.  [decode] keeps every byte: for valid base64 it returns as many
    bytes as the binary string of [atob] has characters, byte [i] being the
    code of character [i], between 0 and 255; for anything else it fails
    with the InvalidCharacterError of [atob]. *)
Theorem decode_keeps_every_byte base64 :
  match atob base64 with
  | Some bin =>
      exists bytes,
        decode base64 = Returns bytes
        /\ List.length bytes = String.length bin
        /\ forall i, (i < String.length bin)%nat ->
             nth_error bytes i = Some (charCodeAt bin i)
             /\ (0 <= charCodeAt bin i < 256)%Z
  | None => decode base64 = Throws InvalidCharacterError
  end.
Proof.
  destruct (atob base64) as [bin|] eqn:Ha.
  - exists (bytes_of bin). split; [exact (decode_bytes _ Ha)|].
    split; [apply bytes_of_length|].
    intros i Hi. split; [|apply charCodeAt_range].
    rewrite <- (bytes_of_nth bin Hi). apply nth_error_nth'.
    now rewrite bytes_of_length.
  - unfold decode. now rewrite Ha.
Qed.

Lemma decoded_buffer_shape base64Data ctx rate buf :
  decodeAudioData base64Data ctx rate = Returns buf ->
  numberOfChannels buf = 1%nat
  /\ sampleRate buf = rate
  /\ (1 <= buf_length buf)%nat
  /\ (0 < rate)%Z.
Proof.
  intros E. destruct (atob base64Data) as [bin|] eqn:Ha.
  2:{ unfold decodeAudioData, decode in E. rewrite Ha in E. discriminate. }
  destruct (Nat.even (String.length bin)) eqn:He.
  2:{ unfold decodeAudioData in E. rewrite (decode_bytes _ Ha) in E.
      fold (bytes_of bin) in E. cbn [obind] in E.
      unfold Int16Array_of in E. rewrite bytes_of_length, He in E.
      discriminate. }
  pose proof (@decodeAudioData_unfold base64Data bin ctx rate Ha He) as U.
  cbv zeta in U. rewrite U in E.
  destruct (createBuffer_cases ctx 1
              (List.length (int16_view (bytes_of bin))) rate)
    as [[b [Hc [_ [_ [Hn [_ Hr]]]]]]|[Hc _]]; rewrite Hc in E;
    cbn [obind] in E; [|discriminate].
  injection E as <-. cbn. auto.
Qed.

(** X13.  What the decoder returns, the player can play.  A buffer
    returned by [decodeAudioData] has a positive duration, its number of
    frames over its sample rate; mounted with it, the first click on play
    starts one live node at offset 0 and rate 1, whether the context was
    running or had to be resumed first. *)
Theorem decoded_audio_can_be_played base64Data ctx rate buf t0 :
  decodeAudioData base64Data ctx rate = Returns buf ->
  let s1 := step ClickPlayPause (mounted buf running t0) in
  (exists d, duration buf = Fin d /\ 0 < d
             /\ d == inject_Z (Z.of_nat (buf_length buf)) / inject_Z rate)
  /\ isPlaying s1 = true
  /\ live_count s1 = 1%nat
  /\ nth_error (nodes s1) 0
     = Some (mkNode (Some buf) (Fin 1) true (Some (Fin 0)) false false
               (Some (mkClosure false (Fin 1) (Some buf))))
  /\ step (ResumeSettled Resolved)
          (step ClickPlayPause (mounted buf suspended t0)) = s1.
Proof.
  intros E. cbv zeta.
  destruct (decoded_buffer_shape _ _ _ E) as [_ [Hr [Hn Hpos]]].
  set (d := Qred (inject_Z (Z.of_nat (buf_length buf)) / inject_Z rate)).
  assert (Hd : duration buf = Fin d).
  { unfold duration, ndiv. rewrite Hr.
    destruct (Qeq_bool (inject_Z rate) 0) eqn:Q; [|reflexivity].
    apply Qeq_bool_iff in Q. unfold Qeq in Q. simpl in Q. lia. }
  assert (D : 0 < d).
  { unfold d. rewrite Qred_correct. apply Qlt_shift_div_l.
    - unfold Qlt. simpl. lia.
    - rewrite Qmult_0_l. unfold Qlt. simpl. lia. }
  split; [exists d; split; [exact Hd|]; split; [exact D|];
          apply Qred_correct|].
  rewrite first_play_after_resume.
  rewrite (@first_play buf d t0 Hd D).
  repeat split.
Qed.


End DecoderMore.

(* ================================================================== *)
(** ** Properties of the service calls and of their callers *)

Section ServiceFacts.
Import Decoder Service App.

Variable generateContent : Request -> settled Response.

Lemma truthy_nonempty t : truthy t = true <-> t <> EmptyString.
Proof. destruct t; cbn; split; congruence. Qed.


Lemma translateDocument_text base64Data mimeType targetLanguage mode t :
  fst (translateDocument generateContent base64Data mimeType targetLanguage
         mode) = Fulfilled t ->
  t <> EmptyString.
Proof.
  unfold translateDocument.
  destruct (generateContent _) as [response|cause]; cbn; [|discriminate].
  destruct (r_text response) as [t'|]; cbn.
  - destruct (truthy t') eqn:E; intros [= <-]; [|discriminate].
    now apply truthy_nonempty.
  - intros [= <-]. discriminate.
Qed.


(** X14.  [translateDocument] never returns an empty text and never lets
    the cause of a failure through: it is fulfilled exactly when the model
    answers, with the text of the answer, or with the fixed notice when
    that text is missing or empty; and when the model fails it is rejected
    with the one message [Failed to translate document.], the cause going
    to the console only. *)
Theorem translateDocument_results base64Data mimeType targetLanguage mode :
  let request :=
    translate_request base64Data mimeType targetLanguage mode in
  let result :=
    translateDocument generateContent base64Data mimeType targetLanguage
      mode in
  (forall response, generateContent request = Fulfilled response ->
     exists t, result = (Fulfilled t, [])
               /\ t <> EmptyString
               /\ (r_text response = Some t
                   \/ (t = "Could not extract text."%string
                       /\ (r_text response = None
                           \/ r_text response = Some EmptyString))))
  /\ (forall cause, generateContent request = RejectedWith cause ->
        result = (RejectedWith "Failed to translate document.",
                  [("Translation error:"%string, cause)])).
Proof.
  cbv zeta. unfold translateDocument. split.
  - intros response E. rewrite E.
    destruct (r_text response) as [t|] eqn:T.
    + destruct (truthy t) eqn:Y.
      * exists t. split; [reflexivity|]. split; [|auto].
        now apply truthy_nonempty.
      * exists "Could not extract text."%string.
        split; [reflexivity|]. split; [discriminate|].
        right. split; [reflexivity|]. right.
        destruct t; [reflexivity|discriminate].
    + exists "Could not extract text."%string.
      split; [reflexivity|]. split; [discriminate|]. auto.
  - intros cause E. rewrite E. reflexivity.
Qed.

(** X15.  [generateSpeech] returns audio only when there is some: it is
    fulfilled exactly when the first part of the first candidate of the
    answer carries inline data that is not empty, and with that data.  In
    every other case, a failed call or an answer without such data, it is
    rejected with the one message [Failed to generate speech.]; the message
    [No audio data received.] it throws itself is caught by its own handler
    and reaches the console only. *)
Theorem generateSpeech_results text :
  let result := generateSpeech generateContent text in
  (forall audioData,
     fst result = Fulfilled audioData <->
     exists response,
       generateContent (speech_request text) = Fulfilled response
       /\ first_audio response = Some audioData
       /\ audioData <> EmptyString)
  /\ (forall message, fst result = RejectedWith message ->
        message = "Failed to generate speech."%string
        /\ exists cause, snd result = [("TTS error:"%string, cause)]
             /\ (generateContent (speech_request text) = RejectedWith cause
                 \/ (cause = "No audio data received."%string
                     /\ exists response,
                          generateContent (speech_request text)
                          = Fulfilled response
                          /\ (first_audio response = None
                              \/ first_audio response = Some EmptyString)))).
Proof.
  cbv zeta. unfold generateSpeech.
  destruct (generateContent (speech_request text)) as [response|cause].
  - destruct (first_audio response) as [a|] eqn:F.
    + destruct (truthy a) eqn:Y; cbn.
      * split.
        -- intros audioData. split.
           ++ intros [= <-]. exists response. repeat split; auto.
              now apply truthy_nonempty.
           ++ intros [r [[= <-] [H _]]]. congruence.
        -- intros message H. discriminate.
      * assert (a = EmptyString) by (destruct a; [reflexivity|discriminate]).
        subst a. split.
        -- intros audioData. split; [discriminate|].
           intros [r [[= <-] [H N]]]. congruence.
        -- intros message [= <-]. split; [reflexivity|].
           eexists. split; [reflexivity|]. right. split; [reflexivity|].
           exists response. auto.
    + cbn. split.
      * intros audioData. split; [discriminate|].
        intros [r [[= <-] [H _]]]. congruence.
      * intros message [= <-]. split; [reflexivity|].
        eexists. split; [reflexivity|]. right. split; [reflexivity|].
        exists response. auto.
  - cbn. split.
    + intros audioData. split; [discriminate|].
      intros [r [H _]]. discriminate.
    + intros message [= <-]. split; [reflexivity|].
      eexists. split; [reflexivity|]. auto.
Qed.

End ServiceFacts.

Section AppFacts.
Import Decoder Service App.

Variable generateContent : Request -> settled Response.
Variable audioCtx : BaseAudioContext.
Variable describe : exn -> string.

(** X16.  [generateAudioOnly] does nothing without a translated text, and
    otherwise always ends in the READY status, with the text and the
    history untouched.  Either the speech was generated and decoded: the
    buffer is stored, the error message is left as it was and the temporary
    context is closed again.  Or a step failed: the buffer is left as it
    was and the message is [Failed to generate audio.]; when it is the
    decoding that failed, the temporary context is left open. *)
Theorem generateAudioOnly_ends_ready a :
  let a' := generateAudioOnly generateContent audioCtx describe a in
  let speech := fst (generateSpeech generateContent (translatedText a)) in
  (translatedText a = EmptyString -> a' = a)
  /\ (translatedText a <> EmptyString ->
      status a' = READY
      /\ translatedText a' = translatedText a
      /\ history a' = history a
      /\ ((exists audio buf,
             speech = Fulfilled audio
             /\ decodeAudioData audio audioCtx defaultSampleRate
                = Returns buf
             /\ audioBuffer a' = Some buf
             /\ errorMsg a' = errorMsg a
             /\ open_contexts a' = open_contexts a)
          \/ (audioBuffer a' = audioBuffer a
              /\ errorMsg a' = "Failed to generate audio."%string
              /\ ((exists message,
                     speech = RejectedWith message
                     /\ open_contexts a' = open_contexts a)
                  \/ (exists audio e,
                        speech = Fulfilled audio
                        /\ decodeAudioData audio audioCtx defaultSampleRate
                           = Throws e
                        /\ open_contexts a' = S (open_contexts a)))))).
Proof.
  cbv zeta. unfold generateAudioOnly. split.
  - intros E. rewrite E. reflexivity.
  - intros N. apply truthy_nonempty in N. rewrite N. cbn [negb].
    destruct (generateSpeech generateContent (translatedText a))
      as [[audio|message] lines]; cbn [fst].
    + destruct (decodeAudioData audio audioCtx defaultSampleRate)
        as [buf|e] eqn:D; cbn.
      * repeat split. left. exists audio, buf. repeat split. exact D.
      * repeat split. right. repeat split. right. exists audio, e.
        repeat split. exact D.
    + cbn. repeat split. right. repeat split. left. exists message.
      repeat split.
Qed.


(** X19.  A recorded document can be replayed.  The entry [handleProcess]
    puts at the head of the history carries the text it shows, which is
    never empty.  Loading that entry shows it in READY without audio, and
    [generateAudioOnly] then does ask for speech, whatever the remote model
    answers by then: it ends in READY with the text and the history of the
    entry kept, with the decoded buffer when speech and decoding succeed
    and with the message [Failed to generate audio.] when either fails. *)
Theorem recorded_document_can_be_replayed
    (later : Request -> settled Response) now_id now_ts a f b :
  file a = Some f ->
  let a' :=
    handleProcess generateContent audioCtx describe now_id now_ts a in
  status a' = READY ->
  exists item,
    nth_error (history a') 0 = Some item
    /\ text item = translatedText a'
    /\ text item <> EmptyString
    /\ let b1 := loadHistoryItem item b in
       let b2 := generateAudioOnly later audioCtx describe b1 in
       status b1 = READY
       /\ audioBuffer b1 = None
       /\ translatedText b1 = text item
       /\ status b2 = READY
       /\ translatedText b2 = text item
       /\ history b2 = history b
       /\ (forall audio buf,
             fst (generateSpeech later (text item)) = Fulfilled audio ->
             decodeAudioData audio audioCtx defaultSampleRate
             = Returns buf ->
             audioBuffer b2 = Some buf /\ errorMsg b2 = errorMsg b)
       /\ (forall audio e,
             fst (generateSpeech later (text item)) = Fulfilled audio ->
             decodeAudioData audio audioCtx defaultSampleRate = Throws e ->
             audioBuffer b2 = None
             /\ errorMsg b2 = "Failed to generate audio."%string)
       /\ (forall message,
             fst (generateSpeech later (text item))
             = RejectedWith message ->
             audioBuffer b2 = None
             /\ errorMsg b2 = "Failed to generate audio."%string).
Proof.
  intros F. cbv zeta. unfold handleProcess. rewrite F.
  destruct (translateDocument generateContent (f_data f) (f_type f)
              (targetLang a) (processingMode a))
    as [[t|err] lines] eqn:T; [|cbn; discriminate].
  assert (N : t <> EmptyString).
  { apply (@translateDocument_text generateContent (f_data f) (f_type f)
             (targetLang a) (processingMode a) t).
    now rewrite T. }
  destruct (generateSpeech generateContent t) as [[audio|err] lines2];
    [|cbn; discriminate].
  destruct (decodeAudioData audio audioCtx defaultSampleRate) as [buf|e];
    [|cbn; discriminate].
  intros _.
  exists (mkItem (timestamp_id now_id) now_ts (f_name f) (targetLang a) t).
  split; [reflexivity|]. split; [reflexivity|]. split; [exact N|].
  cbv zeta. cbn [text].
  split; [reflexivity|]. split; [reflexivity|]. split; [reflexivity|].
  unfold generateAudioOnly.
  change (translatedText (loadHistoryItem _ b)) with t.
  rewrite (proj2 (truthy_nonempty t) N). cbn [negb].
  destruct (generateSpeech later t) as [[audio'|message] lines'];
    cbn [fst].
  - destruct (decodeAudioData audio' audioCtx defaultSampleRate)
      as [buf'|e'] eqn:D;
      (split; [reflexivity|]); (split; [reflexivity|]);
      (split; [reflexivity|]); (split; [|split]).
    + intros ? ? [= <-] E. rewrite D in E. injection E as <-.
      split; reflexivity.
    + intros ? ? [= <-] E. rewrite D in E. discriminate E.
    + intros ? E. discriminate E.
    + intros ? ? [= <-] E. rewrite D in E. discriminate E.
    + intros ? ? [= <-] E. split; reflexivity.
    + intros ? E. discriminate E.
  - (split; [reflexivity|]); (split; [reflexivity|]);
      (split; [reflexivity|]); (split; [|split]).
    + intros ? ? E. discriminate E.
    + intros ? ? E. discriminate E.
    + intros ? _. split; reflexivity.
Qed.

(** X18.  The history stays bounded and stored.  [saveHistory] puts the
    new entry first, keeps the earlier entries in their order and at most
    twenty entries in all; [deleteHistoryItem] removes every entry with the
    given id and no other; after either, the store holds exactly the
    history shown. *)
Theorem history_is_bounded_and_stored captured newItem item_id a :
  let saved := saveHistory captured newItem a in
  let deleted := deleteHistoryItem item_id a in
  (List.length (history saved)
   = Nat.min 20 (S (List.length captured))
   /\ nth_error (history saved) 0 = Some newItem
   /\ (forall i, (S i < 20)%nat ->
         nth_error (history saved) (S i) = nth_error captured i)
   /\ stored_history saved = Some (history saved))
  /\ ((forall h, In h (history deleted) <->
                 In h (history a) /\ id h <> item_id)
      /\ (List.length (history deleted) <= List.length (history a))%nat
      /\ stored_history deleted = Some (history deleted)).
Proof.
  cbv zeta. unfold saveHistory, deleteHistoryItem, slice0.
  cbn [history stored_history set_history set_stored_history].
  split; [split; [|split; [|split]]|split; [|split]].
  - rewrite length_firstn. reflexivity.
  - reflexivity.
  - intros i Hi. rewrite nth_error_firstn.
    replace (S i <? 20)%nat with true
      by (symmetry; apply Nat.ltb_lt; exact Hi).
    reflexivity.
  - reflexivity.
  - intros h. rewrite filter_In. rewrite negb_true_iff.
    split; intros [H1 H2]; (split; [exact H1|]).
    + intros E. apply String.eqb_eq in E. congruence.
    + apply String.eqb_neq. exact H2.
  - apply filter_length_le.
  - reflexivity.
Qed.

End AppFacts.

(* ================================================================== *)
(** ** Instances *)

Section Instances.
Import Decoder Player PlayerEffect Service App.

(** The mounted player with three seconds of silence, at speed 1. *)
Lemma ready_when_mounted :
  ready_to_play (mounted (silence 3) running 0) (silence 3) 3 1 0.
Proof.
  unfold ready_to_play.
  repeat split; try reflexivity; intro; discriminate.
Defined.

Lemma elapsed_tracks_position_witness :
  elapsed_at (Fin 1)
    (step (ClockAdvance 2)
       (step ClickPlayPause (mounted (silence 3) running 0))) = Fin 2.
Proof.
  exact (proj2 (proj2 (proj2
           (@elapsed_tracks_position (mounted (silence 3) running 0)
              (silence 3) 3 1 0 2 ready_when_mounted)))).
Defined.









Lemma play_wraps_the_offset_witness :
  exists r k,
    step ClickPlayPause paused_past_the_end
    = playing_state (capture paused_past_the_end) (silence 3) (Fin r)
        paused_past_the_end
    /\ nth_error (nodes (step ClickPlayPause paused_past_the_end))
         (List.length (nodes paused_past_the_end))
       = Some (started_node (capture paused_past_the_end) (silence 3)
                 (Fin r))
    /\ 0 <= r /\ r < 3
    /\ (0 <= k)%Z /\ 7 == r + 3 * inject_Z k.
Proof.
  refine (@play_wraps_the_offset paused_past_the_end (silence 3) 3 7
            eq_refl eq_refl eq_refl eq_refl eq_refl eq_refl eq_refl eq_refl
            _).
  intro; discriminate.
Defined.

Lemma restart_then_play_starts_at_zero_witness :
  isPlaying
    (step ClickPlayPause (step ClickRestart paused_past_the_end)) = true.
Proof.
  exact (proj1
           (@restart_then_play_starts_at_zero paused_past_the_end
              (silence 3) 3 1 eq_refl eq_refl eq_refl eq_refl eq_refl
              eq_refl eq_refl)).
Defined.

Lemma stored_speed_is_used_by_next_play_witness :
  playbackSpeed
    (step ClickPlayPause
       (step (SelectSpeed (Fin 2)) (mounted (silence 3) running 0)))
  = Fin 2.
Proof.
  exact (proj1 (proj2
           (@stored_speed_is_used_by_next_play
              (mounted (silence 3) running 0) (silence 3) 3 1 0 2
              ready_when_mounted eq_refl))).
Defined.


Lemma completion_test_uses_the_speed_at_play_witness :
  isPlaying
    (step (NodeEnded 0)
       (step (ClockAdvance 1)
          (step (SelectSpeed (Fin 2))
             (step (ClockAdvance 1)
                (step ClickPlayPause (mounted (silence 3) running 0))))))
  = true.
Proof.
  refine (proj1 (proj1 (proj2 (proj2
            (@completion_test_uses_the_speed_at_play
               (mounted (silence 3) running 0) (silence 3) 3 1 0 1 2 1
               ready_when_mounted))) _)).
  reflexivity.
Defined.

Lemma animation_frames_are_never_requested_witness :
  frameRequests
    (step ClickPlayPause (mounted (silence 3) running 0)) = [].
Proof.
  refine (proj1 (@animation_frames_are_never_requested (silence 3) running 0
                   _ _)).
  apply reach_step; [apply reach_init|exact I].
Defined.

Lemma decoded_audio_can_be_played_witness :
  isPlaying
    (step ClickPlayPause
       (mounted
          (mkAudioBuffer 1 3 24000 [[Fin 0; Fin (32767 # 32768); Fin (-1)]])
          running 0)) = true.
Proof.
  exact (proj1 (proj2
           (@decoded_audio_can_be_played "AAD/fwCA" ctx0 24000
              (mkAudioBuffer 1 3 24000
                 [[Fin 0; Fin (32767 # 32768); Fin (-1)]])
              0 eq_refl))).
Defined.


Lemma recorded_document_can_be_replayed_witness :
  let a := mkApp IDLE (Some (mkFile "bill.pdf" "application/pdf" "AAAA"))
             "en" speed "" None "" [] None 0 [] false in
  exists item,
    text item = "Hello"%string
    /\ errorMsg (generateAudioOnly (fun _ => RejectedWith "offline") ctx0
                   (fun e => e) (loadHistoryItem item a))
       = "Failed to generate audio."%string.
Proof.
  cbv zeta.
  destruct (@recorded_document_can_be_replayed
              (fun _ => Fulfilled
                 (mkResponse (Some "Hello"%string)
                    (Some [mkCandidate (Some (mkRContent (Some
                       [mkRPart
                          (Some (mkRInline (Some "AAD/fwCA"%string)))])))])))
              ctx0 (fun e => e) (fun _ => RejectedWith "offline") 5 6
              (mkApp IDLE (Some (mkFile "bill.pdf" "application/pdf" "AAAA"))
                 "en" speed "" None "" [] None 0 [] false)
              (mkFile "bill.pdf" "application/pdf" "AAAA")
              (mkApp IDLE (Some (mkFile "bill.pdf" "application/pdf" "AAAA"))
                 "en" speed "" None "" [] None 0 [] false)
              eq_refl eq_refl)
    as (item & _ & Ht & _ & _ & _ & _ & _ & _ & _ & _ & _ & H).
  exists item. split.
  - rewrite Ht. reflexivity.
  - apply (H "Failed to generate speech."%string). reflexivity.
Defined.

End Instances.
